(** * Verilog assistant: extraction and rendering core

    A shallow embedding of the text-extraction and diagram-building functions
    of [vlsi_tool_app.py]: [get_module_code], [get_module_names],
    [get_ports_for_testbench], the reply-stripping step of
    [ask_gemini_for_gate_level_netlist] and [create_gate_level_diagram].

    Text is modelled as [string]: a sequence of 8-bit characters read as the
    code points U+0000..U+00FF.  The character classes below are the ones
    Python 3 uses on [str] patterns for these code points. *)

From Stdlib Require Import Ascii String NArith Lia.
From stdpp Require Import base decidable option list strings gmap pretty.

Set Warnings "-register-all,-clear-no-such-hyp".

(** ** Characters *)

Module Chars.

Definition code (c : ascii) : N := N_of_ascii c.

Definition between (lo hi : N) (c : ascii) : bool :=
  ((lo <=? code c) && (code c <=? hi))%N.

(** [str.isspace] / the class [\s]: TAB..CR, FS..US, space, NEL, NBSP. *)
Definition is_space (c : ascii) : bool :=
  between 9 13 c || between 28 32 c || between 133 133 c || between 160 160 c.

(** The class [\w]: alphanumeric code points and the underscore. *)
Definition is_word (c : ascii) : bool :=
  between 48 57 c || between 65 90 c || between 97 122 c || between 95 95 c
  || between 170 170 c || between 178 179 c || between 181 181 c
  || between 185 186 c || between 188 190 c || between 192 214 c
  || between 216 246 c || between 248 255 c.

(** Upper-case letters that have a lower-case partner in the range. *)
Definition is_upper (c : ascii) : bool :=
  between 65 90 c || between 192 214 c || between 216 222 c.

Definition is_lower (c : ascii) : bool :=
  between 97 122 c || between 224 246 c || between 248 254 c.

Definition to_lower (c : ascii) : ascii :=
  if is_upper c then ascii_of_N (code c + 32) else c.

Definition to_upper (c : ascii) : ascii :=
  if is_lower c then ascii_of_N (code c - 32) else c.

Definition eqb (a b : ascii) : bool := Ascii.eqb a b.

(** Membership of a character in a string read as a set of characters. *)
Fixpoint mem (c : ascii) (set : string) : bool :=
  match set with
  | EmptyString => false
  | String x rest => eqb c x || mem c rest
  end.

End Chars.

(** ** String methods of Python used by the program *)

Module Str.

Fixpoint drop_while (p : ascii → bool) (s : string) : string :=
  match s with
  | EmptyString => EmptyString
  | String c s' => if p c then drop_while p s' else s
  end.

Fixpoint take_while (p : ascii → bool) (s : string) : string :=
  match s with
  | EmptyString => EmptyString
  | String c s' => if p c then String c (take_while p s') else EmptyString
  end.

Fixpoint take (n : nat) (s : string) {struct n} : string :=
  match n, s with
  | S n', String c s' => String c (take n' s')
  | _, _ => EmptyString
  end.

Definition is_empty (s : string) : bool :=
  match s with EmptyString => true | _ => false end.

(** Drop the longest suffix of characters satisfying [p]. *)
Fixpoint drop_while_end (p : ascii → bool) (s : string) : string :=
  match s with
  | EmptyString => EmptyString
  | String c s' =>
      let r := drop_while_end p s' in
      if is_empty r && p c then EmptyString else String c r
  end.

(** [s.strip()] *)
Definition strip (s : string) : string :=
  drop_while_end Chars.is_space (drop_while Chars.is_space s).

(** [s.lstrip(chars)] and [s.rstrip(chars)]: [chars] is a set of characters. *)
Definition lstrip (chars s : string) : string :=
  drop_while (fun c => Chars.mem c chars) s.

Definition rstrip (chars s : string) : string :=
  drop_while_end (fun c => Chars.mem c chars) s.

(** [s.split(sep)] for a one-character separator: the pieces between the
    separators, never an empty list. *)
Fixpoint split (sep : ascii) (s : string) : list string :=
  match s with
  | EmptyString => [EmptyString]
  | String c s' =>
      if Chars.eqb c sep then EmptyString :: split sep s'
      else match split sep s' with
           | piece :: pieces => String c piece :: pieces
           | [] => [String c EmptyString]
           end
  end.

Fixpoint map (f : ascii → ascii) (s : string) : string :=
  match s with
  | EmptyString => EmptyString
  | String c s' => String (f c) (map f s')
  end.

(** [s.lower()]: every upper-case letter of the range has its lower-case
    partner in the range. *)
Definition lower (s : string) : string := map Chars.to_lower s.

(** [s.upper()].  The letter U+00DF has the two-letter upper-case form SS.
    The upper-case forms of U+00B5 and U+00FF are U+039C and U+0178, which
    are no code points of this model: the two letters are left as they are,
    and [upper] is the method of Python on the texts without them, the
    texts that satisfy [upper_in_range]. *)
Definition upper_char (c : ascii) : string :=
  if Chars.eqb c "223"%char then "SS"
  else String (Chars.to_upper c) EmptyString.

Fixpoint upper (s : string) : string :=
  match s with
  | EmptyString => EmptyString
  | String c s' => upper_char c +:+ upper s'
  end.

Definition upper_in_range (s : string) : bool :=
  negb (Chars.mem "181"%char s) && negb (Chars.mem "255"%char s).

(** [prefix p s]: [s] starts with [p]. *)
Fixpoint prefix (p s : string) : bool :=
  match p, s with
  | EmptyString, _ => true
  | String a p', String b s' => Chars.eqb a b && prefix p' s'
  | String _ _, EmptyString => false
  end.

(** [sub in s] *)
Fixpoint contains (sub s : string) : bool :=
  prefix sub s ||
  match s with
  | EmptyString => false
  | String _ s' => contains sub s'
  end.

End Str.

(** ** The regular expressions of module [re]

    A backtracking matcher with the priorities of Python's engine: the first
    alternative first, greedy repetition tries one more iteration first, lazy
    repetition tries the continuation first.  A match is the first success in
    that order. *)

Module Re.

Record flags := Flags {
  ignorecase : bool;   (* re.IGNORECASE *)
  multiline : bool;    (* re.MULTILINE *)
  dotall : bool        (* re.DOTALL *)
}.

Inductive regex :=
| Eps                                   (* empty pattern *)
| Chr (c : ascii)                       (* a literal character *)
| Cls (p : ascii → bool)                (* \s, \w, [...] *)
| Dot                                   (* . *)
| Cat (r1 r2 : regex)                   (* r1 r2 *)
| Alt (r1 r2 : regex)                   (* r1|r2 *)
| Star (greedy : bool) (r : regex)      (* r* and r*? *)
| Grp (i : nat) (r : regex)             (* capturing group number i *)
| Bol                                   (* ^ *)
| Eol                                   (* $ *)
| Ahead (r : regex).                    (* (?=r) *)

Definition Plus (greedy : bool) (r : regex) : regex := Cat r (Star greedy r).
Definition Opt (r : regex) : regex := Alt r Eps.

(** A literal string; also what [re.escape(s)] matches. *)
Fixpoint Lit (s : string) : regex :=
  match s with
  | EmptyString => Eps
  | String c s' => Cat (Chr c) (Lit s')
  end.

(** Position in the subject: the character before it (if any), the text
    from it on, and the groups captured so far (latest first). *)
Record mstate := MState {
  before : option ascii;
  rest : string;
  caps : list (nat * string)
}.

Definition advance (c : ascii) (s' : string) (st : mstate) : mstate :=
  MState (Some c) s' (caps st).

(** The text consumed between two positions of one subject. *)
Definition consumed (st st' : mstate) : string :=
  Str.take (String.length (rest st) - String.length (rest st')) (rest st).

Definition chr_matches (fl : flags) (c x : ascii) : bool :=
  if ignorecase fl then Chars.eqb (Chars.to_lower c) (Chars.to_lower x)
  else Chars.eqb c x.

Definition at_bol (fl : flags) (st : mstate) : bool :=
  match before st with
  | None => true
  | Some c => multiline fl && Chars.eqb c "010"%char
  end.

Definition at_eol (fl : flags) (st : mstate) : bool :=
  match rest st with
  | EmptyString => true
  | String c EmptyString => Chars.eqb c "010"%char
  | String c _ => multiline fl && Chars.eqb c "010"%char
  end.

Definition orelse {A} (x y : option A) : option A :=
  match x with Some _ => x | None => y end.

Definition step_char (ok : ascii → bool) (st : mstate)
    (k : mstate → option mstate) : option mstate :=
  match rest st with
  | String x s' => if ok x then k (advance x s' st) else None
  | EmptyString => None
  end.

(** The loop of a repetition whose body is matched by [body]: at most [n]
    more iterations, each of which has to consume something. *)
Fixpoint star_loop (body : mstate → (mstate → option mstate) → option mstate)
    (greedy : bool) (k : mstate → option mstate) (n : nat) (st : mstate)
    : option mstate :=
  match n with
  | O => k st
  | S n' =>
      let again :=
        body st (fun st' =>
          if (String.length (rest st') <? String.length (rest st))%nat
          then star_loop body greedy k n' st' else None) in
      if greedy then orelse again (k st) else orelse (k st) again
  end.

(** [run fl r st k]: match [r] at [st], then continue with [k]; the result is
    the first success in priority order.  A look-ahead is tried once and
    leaves the position as it was; the patterns of the program capture
    nothing inside a look-ahead. *)
Fixpoint run (fl : flags) (r : regex) (st : mstate)
    (k : mstate → option mstate) {struct r} : option mstate :=
  match r with
  | Eps => k st
  | Chr c => step_char (chr_matches fl c) st k
  | Cls p => step_char p st k
  | Dot => step_char (fun x => dotall fl || negb (Chars.eqb x "010"%char)) st k
  | Cat r1 r2 => run fl r1 st (fun st' => run fl r2 st' k)
  | Alt r1 r2 => orelse (run fl r1 st k) (run fl r2 st k)
  | Star greedy r1 =>
      star_loop (run fl r1) greedy k (String.length (rest st)) st
  | Grp i r1 =>
      run fl r1 st (fun st' =>
        k (MState (before st') (rest st') ((i, consumed st st') :: caps st')))
  | Bol => if at_bol fl st then k st else None
  | Eol => if at_eol fl st then k st else None
  | Ahead r1 =>
      match run fl r1 st Some with
      | Some _ => k st
      | None => None
      end
  end.

(** A match object: the text of the whole match, and the final state. *)
Record rmatch := RMatch {
  whole : string;
  final : mstate
}.

(** [m.group(i)] for i >= 1; [None] when the group took no part. *)
Fixpoint lookup_group (i : nat) (l : list (nat * string)) : option string :=
  match l with
  | [] => None
  | (j, s) :: l' => if Nat.eqb i j then Some s else lookup_group i l'
  end.

Definition group (m : rmatch) (i : nat) : option string :=
  match i with
  | O => Some (whole m)
  | _ => lookup_group i (caps (final m))
  end.

(** An element reported by [findall]: a group that took no part is ''. *)
Definition group_text (m : rmatch) (i : nat) : string :=
  default EmptyString (group m i).

(** [pattern.match] at one position. *)
Definition match_at (fl : flags) (r : regex) (b : option ascii) (s : string)
    : option rmatch :=
  let st := MState b s [] in
  match run fl r st Some with
  | Some e => Some (RMatch (consumed st e) e)
  | None => None
  end.

(** [pattern.search]: the leftmost position with a match. *)
Fixpoint search_from (fl : flags) (r : regex) (b : option ascii) (s : string)
    : option rmatch :=
  match match_at fl r b s with
  | Some m => Some m
  | None =>
      match s with
      | EmptyString => None
      | String c s' => search_from fl r (Some c) s'
      end
  end.

Definition search (fl : flags) (r : regex) (s : string) : option rmatch :=
  search_from fl r None s.

(** [pattern.findall] as a scan: [skip] characters of the last match are
    still to be passed over; the next search starts where that match ended
    (one character further after an empty match). *)
Fixpoint scan (fl : flags) (r : regex) (b : option ascii) (s : string)
    (skip : nat) : list rmatch :=
  match skip, s with
  | S skip', String c s' => scan fl r (Some c) s' skip'
  | S _, EmptyString => []
  | O, _ =>
      match match_at fl r b s with
      | Some m =>
          m :: match s with
               | String c s' => scan fl r (Some c) s' (String.length (whole m) - 1)
               | EmptyString => []
               end
      | None =>
          match s with
          | String c s' => scan fl r (Some c) s' 0
          | EmptyString => []
          end
      end
  end.

Definition finditer (fl : flags) (r : regex) (s : string) : list rmatch :=
  scan fl r None s 0.

End Re.

Import Re.

(** ** The program *)

Definition no_flags : flags := Flags false false false.

(** The class [[\s\S]]. *)
Definition any_char (c : ascii) : bool :=
  Chars.is_space c || negb (Chars.is_space c).

(** [get_module_code]:
    re.compile(r'^\s*module\s+' + re.escape(module_name) + r'[\s\S]*?endmodule',
               re.DOTALL | re.MULTILINE) *)
Definition module_code_regex (module_name : string) : regex :=
  Cat Bol
  (Cat (Star true (Cls Chars.is_space))
  (Cat (Lit "module")
  (Cat (Plus true (Cls Chars.is_space))
  (Cat (Lit module_name)
  (Cat (Star false (Cls any_char))
       (Lit "endmodule")))))).

Definition module_code_flags : flags := Flags false true true.

Definition get_module_code (module_name full_verilog_text : string)
    : option string :=
  match search module_code_flags (module_code_regex module_name)
               full_verilog_text with
  | Some m => Some (whole m)
  | None => None
  end.

(** [get_module_names]:
    re.findall(r'^\s*module\s+(\w+)', verilog_text, re.MULTILINE) *)
Definition module_names_regex : regex :=
  Cat Bol
  (Cat (Star true (Cls Chars.is_space))
  (Cat (Lit "module")
  (Cat (Plus true (Cls Chars.is_space))
       (Grp 1 (Plus true (Cls Chars.is_word)))))).

Definition module_names_flags : flags := Flags false true false.

Definition get_module_names (verilog_text : string) : list string :=
  (fun m => group_text m 1) <$>
    finditer module_names_flags module_names_regex verilog_text.

(** [get_ports_for_testbench], the header pattern:
    re.compile(r'module\s+' + re.escape(module_name) + r'\s*#?\s*\(([\s\S]*?)\);',
               re.DOTALL | re.IGNORECASE) *)
Definition module_regex (module_name : string) : regex :=
  Cat (Lit "module")
  (Cat (Plus true (Cls Chars.is_space))
  (Cat (Lit module_name)
  (Cat (Star true (Cls Chars.is_space))
  (Cat (Opt (Chr "#"%char))
  (Cat (Star true (Cls Chars.is_space))
  (Cat (Chr "("%char)
  (Cat (Grp 1 (Star false (Cls any_char)))
  (Cat (Chr ")"%char) (Chr ";"%char))))))))).

Definition module_regex_flags : flags := Flags true false true.

(** The port-group pattern:
    (input|output)\s*(?:reg|wire)?\s*(\[[^\]]+\])?\s*([\w\s,]+?)
    (?=(?:,?\s*(?:input|output|inout|$))) *)
Definition not_rbracket (c : ascii) : bool := negb (Chars.eqb c "]"%char).

Definition name_char (c : ascii) : bool :=
  Chars.is_word c || Chars.is_space c || Chars.eqb c ","%char.

(** The direction keyword, captured as group 1. *)
Definition port_direction : regex := Alt (Lit "input") (Lit "output").

(** What follows the keyword: the optional net type, the optional width
    (group 2), the names (group 3) and the look-ahead. *)
Definition port_tail : regex :=
  Cat (Star true (Cls Chars.is_space))
  (Cat (Opt (Alt (Lit "reg") (Lit "wire")))
  (Cat (Star true (Cls Chars.is_space))
  (Cat (Opt (Grp 2 (Cat (Chr "["%char)
                   (Cat (Plus true (Cls not_rbracket)) (Chr "]"%char)))))
  (Cat (Star true (Cls Chars.is_space))
  (Cat (Grp 3 (Plus false (Cls name_char)))
       (Ahead (Cat (Opt (Chr ","%char))
              (Cat (Star true (Cls Chars.is_space))
                   (Alt (Lit "input")
                   (Alt (Lit "output")
                   (Alt (Lit "inout") Eol))))))))))).

Definition port_regex : regex := Cat (Grp 1 port_direction) port_tail.

(** names = [name.strip() for name in p_names.strip().split(',') if name.strip()] *)
Definition port_names (p_names : string) : list string :=
  Str.strip <$>
    filter (fun name => Str.is_empty (Str.strip name) = false)
           (Str.split ","%char (Str.strip p_names)).

(** port_info = f"{p_width.strip() if p_width else ''} {name}", then
    [port_info.strip()] when it is appended. *)
Definition port_info (p_width name : string) : string :=
  (if Str.is_empty p_width then "" else Str.strip p_width) +:+ " " +:+ name.

(** One iteration of the loop over the groups: the pair (inputs, outputs)
    with the names of this group appended. *)
Definition add_group (acc : list string * list string)
    (p_type p_width p_names : string) : list string * list string :=
  fold_left (fun '(inputs, outputs) name =>
               if String.eqb p_type "input"
               then (inputs ++ [Str.strip (port_info p_width name)], outputs)
               else (inputs, outputs ++ [Str.strip (port_info p_width name)]))
            (port_names p_names) acc.

Definition parse_ports (ports_text : string) : list string * list string :=
  fold_left (fun acc m =>
               add_group acc (group_text m 1) (group_text m 2) (group_text m 3))
            (finditer no_flags port_regex (ports_text +:+ "
"))
            ([], []).

(** Every step of the body is total on texts, so the handler
    [except Exception: return [], []] has no case of its own here. *)
Definition get_ports_for_testbench (module_name verilog_text : string)
    : list string * list string :=
  match search module_regex_flags (module_regex module_name) verilog_text with
  | None => ([], [])
  | Some module_match => parse_ports (group_text module_match 1)
  end.

(** The reply clean-up of [ask_gemini_for_gate_level_netlist]:
    json_text = response.text.strip().lstrip("```json").rstrip("```") *)
Definition strip_reply (text : string) : string :=
  Str.rstrip "```" (Str.lstrip "```json" (Str.strip text)).

(** [json.loads] is the library's; the requester applies it to the stripped
    reply. *)
Definition parse_reply {A} (json_loads : string → A) (text : string) : A :=
  json_loads (strip_reply text).

(** ** Netlists and diagrams *)

(** A gate object of the netlist: each key may be absent. *)
Record gate := Gate {
  g_type : option string;
  g_output : option string;
  g_inputs : option (list string)
}.

(** The dictionary handed to the renderer: a netlist, an error record, or
    both sets of keys at once. *)
Record netlist := Netlist {
  error : option string;
  inputs : option (list string);
  outputs : option (list string);
  gates : option (list gate)
}.

Definition attrs := list (string * string).

(** The body of a [Digraph]: the statements in the order they were added. *)
Inductive stmt :=
| Attr (kw : option string) (a : attrs)           (* dot.attr(kw, **a) *)
| Node (name : string) (label : option string) (a : attrs)
| Edge (tail head : string)
| Subgraph (name : string) (body : list stmt).

Definition digraph := list stmt.

Definition new_digraph : digraph :=
  [ Attr None [("rankdir", "LR"); ("splines", "ortho"); ("ranksep", "1.2");
               ("nodesep", "0.6"); ("bgcolor", "transparent")];
    Attr (Some "node") [("shape", "box"); ("style", "filled,rounded");
                        ("fontname", "Helvetica"); ("fontsize", "10")];
    Attr (Some "edge") [("arrowhead", "vee"); ("arrowsize", "0.7")] ].

Definition color_input : string := "#C1FFC1".
Definition color_output : string := "#FFDDC1".
Definition color_gate : string := "#C1DDFF".
Definition color_wire : string := "#E0E0E0".

Definition error_node (message : string) : stmt :=
  Node "error" (Some ("Error:
" +:+ message))
       [("shape", "box"); ("style", "filled"); ("fillcolor", "#FFCCCC")].

Definition port_node (color port : string) : stmt :=
  Node port (Some port) [("shape", "ellipse"); ("fillcolor", color)].

Definition cluster (name label color : string) (ports : list string) : stmt :=
  Subgraph name
    (Attr None [("label", label); ("style", "rounded"); ("color", "gray")]
     :: (port_node color <$> ports)).

Definition junction_node (node : string) : stmt :=
  Node node (Some node) [("shape", "point"); ("width", "0.01"); ("color", "gray")].

(** [if gate_output:] holds for a present, non-empty string. *)
Definition truthy (o : option string) : bool :=
  match o with
  | Some s => negb (Str.is_empty s)
  | None => false
  end.

Definition gate_label (g : gate) : string :=
  Str.upper (default "gate" (g_type g)).

Definition gate_id (i : nat) (g : gate) : string :=
  "gate_" +:+ pretty i +:+ "_" +:+ Str.lower (gate_label g).

(** The state of the gate loop: the diagram body and the set [all_nodes]. *)
Definition render_state : Type := digraph * gset string.

Definition add_edge (tl hd node : string) (st : render_state) : render_state :=
  (st.1 ++ [Edge tl hd], {[ node ]} ∪ st.2).

(** The body of the loop [for i, gate in enumerate(...)]. *)
Definition render_gate (i : nat) (g : gate) (st : render_state) : render_state :=
  let gate_type := gate_label g in
  let gid := gate_id i g in
  let st1 : render_state :=
    (st.1 ++ [Node gid (Some gate_type) [("fillcolor", color_gate)]], st.2) in
  let st2 :=
    match g_output g with
    | Some gate_output =>
        if truthy (Some gate_output) then add_edge gid gate_output gate_output st1
        else st1
    | None => st1
    end in
  fold_left (fun acc g_input => add_edge g_input gid g_input acc)
            (default [] (g_inputs g)) st2.

Fixpoint render_gates (i : nat) (gs : list gate) (st : render_state)
    : render_state :=
  match gs with
  | [] => st
  | g :: gs' => render_gates (S i) gs' (render_gate i g st)
  end.

(** any(gate.get("output") == node for gate in ...) *)
Definition is_gate_output (gs : list gate) (node : string) : bool :=
  existsb (fun g => bool_decide (g_output g = Some node)) gs.

Definition in_list (x : string) (l : list string) : bool :=
  bool_decide (x ∈ l).

(** The last loop: which names of [all_nodes] get a junction node. *)
Definition is_junction (nl : netlist) (node : string) : bool :=
  negb (in_list node (default [] (inputs nl)))
  && negb (in_list node (default [] (outputs nl)))
  && negb (is_gate_output (default [] (gates nl)) node).

(** [all_nodes] is a set: the last loop visits each name once, in an order
    Python does not fix; [elements] stands for that order. *)
Definition create_gate_level_diagram (nl : netlist) : digraph :=
  let dot := new_digraph in
  match error nl with
  | Some message => dot ++ [error_node message]
  | None =>
      let all_nodes : gset string := ∅ in
      let ins := default [] (inputs nl) in
      let dot := dot ++ [cluster "cluster_inputs" "Inputs" color_input ins] in
      let all_nodes := list_to_set ins ∪ all_nodes in
      let outs := default [] (outputs nl) in
      let dot := dot ++ [cluster "cluster_outputs" "Outputs" color_output outs] in
      let all_nodes := list_to_set outs ∪ all_nodes in
      let '(dot, all_nodes) :=
        render_gates 0 (default [] (gates nl)) (dot, all_nodes) in
      dot ++ (junction_node <$> filter (fun node => is_junction nl node = true)
                                       (elements all_nodes))
  end.

(** Reading a diagram: node and edge statements, clusters included. *)
Fixpoint stmt_nodes (s : stmt) : list stmt :=
  match s with
  | Node _ _ _ => [s]
  | Subgraph _ body => flat_map stmt_nodes body
  | _ => []
  end.

Fixpoint stmt_edges (s : stmt) : list (string * string) :=
  match s with
  | Edge t h => [(t, h)]
  | Subgraph _ body => flat_map stmt_edges body
  | _ => []
  end.

Definition nodes (d : digraph) : list stmt := flat_map stmt_nodes d.
Definition edges (d : digraph) : list (string * string) := flat_map stmt_edges d.

Definition node_name (s : stmt) : string :=
  match s with Node n _ _ => n | _ => "" end.

Definition node_label (s : stmt) : option string :=
  match s with Node _ l _ => l | _ => None end.

Definition node_attrs (s : stmt) : attrs :=
  match s with Node _ _ a => a | _ => [] end.

(** The nodes drawn inside the cluster called [name]. *)
Definition cluster_nodes (name : string) (d : digraph) : list stmt :=
  flat_map (fun s => match s with
                     | Subgraph n body =>
                         if String.eqb n name then flat_map stmt_nodes body else []
                     | _ => []
                     end) d.

Definition has_attr (k v : string) (s : stmt) : bool :=
  bool_decide ((k, v) ∈ node_attrs s).

Definition is_junction_node (s : stmt) : bool := has_attr "shape" "point" s.
Definition is_gate_node (s : stmt) : bool := has_attr "fillcolor" color_gate s.

(** ** Notions used by the statements *)

(** A source file whose only module is called [adder]. *)
Definition adder_source : string :=
  "module adder(input a, output y);
  assign y = a;
endmodule
".

(** The error record [{"error": message}]. *)
Definition error_record (message : string) : netlist :=
  Netlist (Some message) None None None.

(** Every character of [s] satisfies [p]. *)
Fixpoint all_chars (p : ascii → bool) (s : string) : bool :=
  match s with
  | EmptyString => true
  | String c s' => p c && all_chars p s'
  end.

(** The white space of JSON texts: space, TAB, LF, CR. *)
Definition json_ws (c : ascii) : bool :=
  Chars.eqb c " "%char || Chars.eqb c "009"%char
  || Chars.eqb c "010"%char || Chars.eqb c "013"%char.

(** A reply that wraps [inner] in a fence tagged json, with white space
    [lead] and [trail] around the fence. *)
Definition fenced_reply (lead inner trail : string) : string :=
  lead +:+ "```json" +:+ inner +:+ "```" +:+ trail.

(** The text of a JSON object: braces around [body], JSON white space
    [pad1] and [pad2] around the braces. *)
Definition object_text (pad1 body pad2 : string) : string :=
  pad1 +:+ "{" +:+ body +:+ "}" +:+ pad2.

(** The names drawn as junction points, and the names drawn inside the
    input cluster. *)
Definition junction_names (d : digraph) : list string :=
  node_name <$> filter (fun s => is_junction_node s) (nodes d).

Definition input_group_names (d : digraph) : list string :=
  node_name <$> cluster_nodes "cluster_inputs" d.

Definition gate_nodes (d : digraph) : list stmt :=
  filter (fun s => is_gate_node s) (nodes d).

(** What one iteration of the gate loop adds: its statements and the wire
    names it puts into [all_nodes]. *)
Definition gate_out_edge (i : nat) (g : gate) : list stmt :=
  if truthy (g_output g) then [Edge (gate_id i g) (default "" (g_output g))]
  else [].

Definition gate_stmts (i : nat) (g : gate) : list stmt :=
  Node (gate_id i g) (Some (gate_label g)) [("fillcolor", color_gate)]
  :: gate_out_edge i g
  ++ ((fun w => Edge w (gate_id i g)) <$> default [] (g_inputs g)).

Definition gate_wires (g : gate) : list string :=
  (if truthy (g_output g) then [default "" (g_output g)] else [])
  ++ default [] (g_inputs g).

Fixpoint all_gate_stmts (i : nat) (gs : list gate) : list stmt :=
  match gs with
  | [] => []
  | g :: gs' => gate_stmts i g ++ all_gate_stmts (S i) gs'
  end.

Definition is_digit (c : ascii) : bool := Chars.between 48 57 c.

(** The netlist with one [and] gate driving [y] from [a] and [b]. *)
Definition and_netlist (ins outs : list string) (a b y : string) : netlist :=
  Netlist None (Some ins) (Some outs)
          (Some [Gate (Some "and") (Some y) (Some [a; b])]).

(** The reading of "input-group node if and only if declared as input,
    otherwise junction node" for the wires [a] and [b] of the one-gate
    netlist. *)
Definition input_group_else_junction (ins outs : list string) (a b y : string)
    : Prop :=
  let d := create_gate_level_diagram (and_netlist ins outs a b y) in
  ∀ x, x = a ∨ x = b →
    (x ∈ input_group_names d ↔ x ∈ ins)
    ∧ (x ∉ ins → x ∈ junction_names d).

(** A netlist in which the wire [w] feeds two gates. *)
Definition shared_netlist : netlist :=
  Netlist None (Some ["a"]) (Some ["y"])
    (Some [Gate (Some "not") (Some "p") (Some ["a"; "w"]);
           Gate (Some "and") (Some "y") (Some ["w"; "p"])]).

(** ** Module declarations, line by line *)

Definition is_nl (c : ascii) : bool := Chars.eqb c "010"%char.

Fixpoint drop (n : nat) (s : string) {struct n} : string :=
  match n, s with
  | S n', String _ s' => drop n' s'
  | _, _ => s
  end.

Definition head_is (p : ascii → bool) (s : string) : bool :=
  match s with
  | String c _ => p c
  | EmptyString => false
  end.

(** The name declared by a line: the line begins, after optional white
    space, with the keyword [module], white space and an identifier. *)
Definition line_declares (line : string) : option string :=
  let l1 := Str.drop_while Chars.is_space line in
  if Str.prefix "module" l1 && head_is Chars.is_space (drop 6 l1) then
    let name :=
      Str.take_while Chars.is_word (Str.drop_while Chars.is_space (drop 6 l1)) in
    if Str.is_empty name then None else Some name
  else None.

(** The names of the module declarations of a text, one line after the
    other: in declaration order, repeated names kept. *)
Definition declared_names (text : string) : list string :=
  omap line_declares (Str.split "010"%char text).

(** A line that holds the keyword [module] and nothing after it but white
    space: the identifier, if any, is on a later line. *)
Definition keyword_alone (line : string) : bool :=
  let l1 := Str.drop_while Chars.is_space line in
  Str.prefix "module" l1 && all_chars Chars.is_space (drop 6 l1).

Definition no_keyword_alone (text : string) : bool :=
  forallb (fun line => negb (keyword_alone line)) (Str.split "010"%char text).

(** The text of a line up to its end, and the text after the line break. *)
Definition first_line (s : string) : string :=
  Str.take_while (fun c => negb (is_nl c)) s.

Fixpoint after_line (s : string) : option string :=
  match s with
  | EmptyString => None
  | String c s' => if is_nl c then Some s' else after_line s'
  end.

(** What the pattern of [get_module_names] matches at a line start of [s]:
    the captured name and the text left after it. *)
Definition decl_at (s : string) : option (string * string) :=
  let s1 := Str.drop_while Chars.is_space s in
  if Str.prefix "module" s1 && head_is Chars.is_space (drop 6 s1) then
    let s3 := Str.drop_while Chars.is_space (drop 6 s1) in
    let name := Str.take_while Chars.is_word s3 in
    if Str.is_empty name then None
    else Some (name, Str.drop_while Chars.is_word s3)
  else None.

(** The character before the position reached by a repetition over the
    class [p], and by a literal. *)
Fixpoint skip_before (p : ascii → bool) (b : option ascii) (s : string)
    : option ascii :=
  match s with
  | String c s' => if p c then skip_before p (Some c) s' else b
  | EmptyString => b
  end.

Fixpoint lit_before (lit : string) (b : option ascii) : option ascii :=
  match lit with
  | EmptyString => b
  | String c lit' => lit_before lit' (Some c)
  end.

(** The character before position [n] of [s]. *)
Fixpoint char_before (b : option ascii) (s : string) (n : nat) {struct n}
    : option ascii :=
  match n, s with
  | S n', String c s' => char_before (Some c) s' n'
  | _, _ => b
  end.

(** The names reported by the scan of [get_module_names] from a position. *)
Definition names_from (b : option ascii) (s : string) : list string :=
  (fun m => group_text m 1) <$>
    scan module_names_flags module_names_regex b s 0.

Definition names_after_line (s : string) : list string :=
  match after_line s with
  | Some s' => names_from (Some "010"%char) s'
  | None => []
  end.

Definition declared_after_line (s : string) : list string :=
  match after_line s with
  | Some s' => declared_names s'
  | None => []
  end.

(** The number of lines of a text that declare a module. *)
Definition declaring_lines (text : string) : nat :=
  length (filter (fun line => is_Some (line_declares line))
                 (Str.split "010"%char text)).


(** ** Notions used by the further properties *)

Definition output_group_names (d : digraph) : list string :=
  node_name <$> cluster_nodes "cluster_outputs" d.

(** The number of edges one gate contributes. *)
Definition gate_edge_count (g : gate) : nat :=
  (if truthy (g_output g) then 1 else 0) + length (default [] (g_inputs g)).

(** ** The testbench requester: what is read out of the reply *)

(** [s.split(sep)] for a separator of any positive length: while [skip]
    is positive the characters of a separator just found are passed over. *)
Fixpoint split_on_go (sep s : string) (skip : nat) : list string :=
  match s with
  | EmptyString => [EmptyString]
  | String c s' =>
      match skip with
      | S skip' => split_on_go sep s' skip'
      | O =>
          if Str.prefix sep s
          then EmptyString :: split_on_go sep s' (String.length sep - 1)
          else match split_on_go sep s' 0 with
               | piece :: pieces => String c piece :: pieces
               | [] => [String c EmptyString]
               end
      end
  end.

Definition split_on (sep s : string) : list string := split_on_go sep s 0.

(** What [generate_testbench_with_gemini] returns when an index of the
    guarded expression is out of range: the IndexError is caught by the
    handler of the function. *)
Definition index_failure : string :=
  "// Gemini API call for testbench failed: list index out of range".

(** code = response.text.strip()
    if '```verilog' in code:
        code = code.split('```verilog')[1].split('```')[0].strip() *)
Definition testbench_code (response_text : string) : string :=
  let code := Str.strip response_text in
  if Str.contains "```verilog" code then
    match split_on "```verilog" code !! 1 with
    | Some fenced =>
        match split_on "```" fenced !! 0 with
        | Some body => Str.strip body
        | None => index_failure
        end
    | None => index_failure
    end
  else code.

(** [sep.join(l)] *)
Fixpoint join (sep : string) (l : list string) : string :=
  match l with
  | [] => EmptyString
  | [x] => x
  | x :: rest => x +:+ sep +:+ join sep rest
  end.

(** The port lines of the testbench prompt: {', '.join(ports) or 'None'} *)
Definition ports_line (ports : list string) : string :=
  let joined := join ", " ports in
  if Str.is_empty joined then "None" else joined.

Definition is_backquote (c : ascii) : bool := Chars.eqb c "`"%char.

(** ** Counting the statements of a diagram *)






(** Two gates: one whose type tag is [stra], the letter U+00DF and [e], and
    one without a type. *)
Definition sharp_s_netlist : netlist :=
  Netlist None (Some ["a"]) (Some ["y"])
    (Some [Gate (Some ("stra" +:+ String "223"%char "e")) (Some "p") (Some ["a"]);
           Gate None (Some "y") (Some ["p"])]).

(** ** Headers of a module in a text *)


(** ** Headers with a width annotation *)













(** * Properties *)

(** ** The error branch of the renderer *)

Lemma nodes_app (d1 d2 : digraph) : nodes (d1 ++ d2) = nodes d1 ++ nodes d2.
Proof. unfold nodes. apply flat_map_app. Qed.

Lemma edges_app (d1 d2 : digraph) : edges (d1 ++ d2) = edges d1 ++ edges d2.
Proof. unfold edges. apply flat_map_app. Qed.

(** C7: for an error record [{error: X}] the diagram has exactly one node
    statement, its label is "Error:" followed by the message [X], and the
    diagram has no edge. *)
Theorem error_record_single_node (X : string) :
  let d := create_gate_level_diagram (error_record X) in
  nodes d = [error_node X]
  ∧ length (nodes d) = 1
  ∧ (∃ pre, node_label (error_node X) = Some (pre +:+ X))
  ∧ edges d = [].
Proof.
  cbn. repeat split.
  exists "Error:
". reflexivity.
Qed.

(** C10: the key "error" alone selects the error branch: whatever inputs,
    outputs and gates the dictionary also carries, the diagram is the one of
    the bare error record, a single error node and no edge. *)
Theorem error_key_overrides_netlist (X : string)
    (ins outs : option (list string)) (gs : option (list gate)) :
  create_gate_level_diagram (Netlist (Some X) ins outs gs)
    = create_gate_level_diagram (error_record X)
  ∧ nodes (create_gate_level_diagram (Netlist (Some X) ins outs gs))
    = [error_node X]
  ∧ edges (create_gate_level_diagram (Netlist (Some X) ins outs gs)) = [].
Proof. repeat split. Qed.

(** ** The module extractor *)

(** C1: on a source whose only module is [adder], the extractor asked for
    the name [add] does not answer "not found": it returns the span of
    [adder], the longer name of which [add] is a prefix.  The port parser,
    whose pattern delimits the name, does not find a header for [add]. *)
Theorem get_module_code_prefix_of_longer_name :
  get_module_names adder_source = ["adder"]
  ∧ get_module_code "add" adder_source
    = Some "module adder(input a, output y);
  assign y = a;
endmodule"
  ∧ search module_regex_flags (module_regex "add") adder_source = None.
Proof. repeat split; vm_compute; reflexivity. Qed.

(** ** Facts on the string methods *)

Lemma app_cons (c : ascii) (a b : string) :
  String c a +:+ b = String c (a +:+ b).
Proof. reflexivity. Qed.

Lemma app_empty_l (b : string) : "" +:+ b = b.
Proof. reflexivity. Qed.

Lemma app_empty_r (a : string) : a +:+ "" = a.
Proof. induction a as [|c a IH]; [reflexivity|]. rewrite app_cons, IH. reflexivity. Qed.

Lemma app_assoc_s (a b c : string) : (a +:+ b) +:+ c = a +:+ (b +:+ c).
Proof.
  induction a as [|x a IH]; [reflexivity|].
  rewrite !app_cons, IH. reflexivity.
Qed.

Lemma is_empty_true (s : string) : Str.is_empty s = true ↔ s = "".
Proof. destruct s; split; intros H; try reflexivity; discriminate. Qed.

Lemma is_empty_app (a b : string) :
  Str.is_empty (a +:+ b) = Str.is_empty a && Str.is_empty b.
Proof. destruct a; reflexivity. Qed.

Lemma drop_while_end_idem (p : ascii → bool) (s : string) :
  Str.drop_while_end p (Str.drop_while_end p s) = Str.drop_while_end p s.
Proof.
  induction s as [|c s IH]; [reflexivity|]. simpl.
  destruct (Str.is_empty (Str.drop_while_end p s)) eqn:He; simpl.
  - destruct (p c) eqn:Hp; [reflexivity|]. simpl.
    rewrite IH, He, Hp. reflexivity.
  - simpl. rewrite IH, He. reflexivity.
Qed.

Lemma drop_while_end_app_keep (p : ascii → bool) (a b : string) :
  Str.drop_while_end p b = b → b ≠ "" →
  Str.drop_while_end p (a +:+ b) = a +:+ b.
Proof.
  intros Hb Hne. induction a as [|c a IH]; [exact Hb|].
  rewrite app_cons. simpl. rewrite IH.
  rewrite is_empty_app.
  assert (Str.is_empty b = false) as ->.
  { destruct b; [contradiction|reflexivity]. }
  rewrite andb_false_r. reflexivity.
Qed.

Lemma drop_while_end_last (p : ascii → bool) (a : string) (c : ascii) :
  p c = false → Str.drop_while_end p (a +:+ String c "") = a +:+ String c "".
Proof.
  intros Hc. apply drop_while_end_app_keep; [|discriminate].
  simpl. rewrite Hc. reflexivity.
Qed.

Lemma strip_idem_end (s : string) :
  Str.drop_while_end Chars.is_space (Str.strip s) = Str.strip s.
Proof. unfold Str.strip. apply drop_while_end_idem. Qed.


(** ** The port parser: display names *)


Lemma port_names_stripped (p_names name : string) :
  name ∈ port_names p_names →
  name ≠ "" ∧ Str.drop_while_end Chars.is_space name = name.
Proof.
  unfold port_names. intros [piece [-> Hin]]%list_elem_of_fmap.
  apply list_elem_of_filter in Hin as [Hne _]. split.
  - intros He. rewrite He in Hne. discriminate.
  - apply strip_idem_end.
Qed.


Lemma add_group_spec (entry : string → string) (p_type p_width : string)
    (names : list string) (ins outs : list string) :
  Forall (fun name => Str.strip (port_info p_width name) = entry name) names →
  fold_left (fun '(inputs, outputs) name =>
               if String.eqb p_type "input"
               then (inputs ++ [Str.strip (port_info p_width name)], outputs)
               else (inputs, outputs ++ [Str.strip (port_info p_width name)]))
            names (ins, outs)
  = if String.eqb p_type "input" then (ins ++ (entry <$> names), outs)
    else (ins, outs ++ (entry <$> names)).
Proof.
  intros Hall. revert ins outs.
  induction Hall as [|name names Hname _ IH]; intros ins outs.
  - simpl. rewrite !app_nil_r. destruct (String.eqb p_type "input"); reflexivity.
  - simpl. rewrite Hname.
    destruct (String.eqb p_type "input") eqn:Ht.
    + rewrite IH. rewrite <- app_assoc. reflexivity.
    + rewrite IH. rewrite <- app_assoc. reflexivity.
Qed.

(** ** The reply clean-up *)

Lemma drop_while_cons_false (p : ascii → bool) (c : ascii) (s : string) :
  p c = false → Str.drop_while p (String c s) = String c s.
Proof. intros H. simpl. rewrite H. reflexivity. Qed.

Lemma drop_while_cons_true (p : ascii → bool) (c : ascii) (s : string) :
  p c = true → Str.drop_while p (String c s) = Str.drop_while p s.
Proof. intros H. simpl. rewrite H. reflexivity. Qed.

Lemma drop_while_all_app (p : ascii → bool) (a : string) (c : ascii) (x : string) :
  all_chars p a = true → p c = false →
  Str.drop_while p (a +:+ String c x) = String c x.
Proof.
  intros Ha Hc. induction a as [|y a IH].
  - rewrite app_empty_l. simpl. rewrite Hc. reflexivity.
  - simpl in Ha. apply andb_true_iff in Ha as [Hy Ha].
    rewrite app_cons. simpl. rewrite Hy. apply IH, Ha.
Qed.

Lemma drop_while_end_all (p : ascii → bool) (t : string) :
  all_chars p t = true → Str.drop_while_end p t = "".
Proof.
  induction t as [|c t IH]; [reflexivity|]. simpl.
  intros [Hc Ht]%andb_true_iff. rewrite (IH Ht), Hc. reflexivity.
Qed.

Lemma drop_while_end_all_suffix (p : ascii → bool) (a t : string) :
  all_chars p t = true →
  Str.drop_while_end p (a +:+ t) = Str.drop_while_end p a.
Proof.
  intros Ht. induction a as [|c a IH].
  - rewrite app_empty_l. apply drop_while_end_all, Ht.
  - rewrite app_cons. simpl. rewrite IH. reflexivity.
Qed.

Lemma drop_while_end_none (p : ascii → bool) (s : string) :
  all_chars (fun c => negb (p c)) s = true → Str.drop_while_end p s = s.
Proof.
  induction s as [|c s IH]; [reflexivity|]. simpl.
  intros [Hc Hs]%andb_true_iff. rewrite (IH Hs).
  apply negb_true_iff in Hc. rewrite Hc, andb_false_r. reflexivity.
Qed.

Lemma all_chars_impl (p q : ascii → bool) (s : string) :
  (∀ c, p c = true → q c = true) →
  all_chars p s = true → all_chars q s = true.
Proof.
  intros Hpq. induction s as [|c s IH]; [reflexivity|]. simpl.
  intros [Hc Hs]%andb_true_iff. rewrite (Hpq _ Hc), (IH Hs). reflexivity.
Qed.

Lemma json_ws_cases (c : ascii) :
  json_ws c = true →
  c = " "%char ∨ c = "009"%char ∨ c = "010"%char ∨ c = "013"%char.
Proof.
  unfold json_ws, Chars.eqb. intros H.
  repeat (apply orb_true_iff in H as [H|H]);
    apply Ascii.eqb_eq in H; auto.
Qed.

Lemma json_ws_not_fence (c : ascii) :
  json_ws c = true → Chars.mem c "```json" = false ∧ Chars.mem c "```" = false.
Proof.
  intros H. apply json_ws_cases in H as [->|[->|[->| ->]]]; split; reflexivity.
Qed.

(** The text of a JSON object starts outside the characters of the opening
    fence and ends outside the back quotes of the closing one. *)
Lemma object_text_lstrip (pad1 body pad2 : string) :
  all_chars json_ws pad1 = true →
  Str.lstrip "```json" (object_text pad1 body pad2) = object_text pad1 body pad2.
Proof.
  intros H1. unfold Str.lstrip, object_text.
  destruct pad1 as [|c pad1]; [reflexivity|].
  simpl in H1. apply andb_true_iff in H1 as [Hc _].
  apply json_ws_not_fence in Hc as [Hc _].
  rewrite app_cons. apply drop_while_cons_false. exact Hc.
Qed.

Lemma object_text_rstrip (pad1 body pad2 : string) :
  all_chars json_ws pad2 = true →
  Str.rstrip "```" (object_text pad1 body pad2) = object_text pad1 body pad2.
Proof.
  intros H2. unfold Str.rstrip, object_text.
  rewrite <- app_assoc_s, <- (app_assoc_s (pad1 +:+ "{")).
  apply drop_while_end_app_keep; [|discriminate].
  apply drop_while_end_none. rewrite app_cons, app_empty_l.
  apply andb_true_iff. split; [reflexivity|].
  eapply all_chars_impl; [|exact H2].
  intros c Hc. apply json_ws_not_fence in Hc as [_ Hc].
  apply negb_true_iff. exact Hc.
Qed.

Lemma strip_reply_fenced (lead trail pad1 body pad2 : string) :
  all_chars Chars.is_space lead = true →
  all_chars Chars.is_space trail = true →
  all_chars json_ws pad1 = true →
  all_chars json_ws pad2 = true →
  strip_reply (fenced_reply lead (object_text pad1 body pad2) trail)
    = object_text pad1 body pad2.
Proof.
  intros Hl Ht H1 H2. unfold strip_reply, fenced_reply.
  set (inner := object_text pad1 body pad2).
  assert (Str.strip (lead +:+ "```json" +:+ inner +:+ "```" +:+ trail)
          = "```json" +:+ inner +:+ "```") as ->.
  { unfold Str.strip.
    change ("```json" +:+ inner +:+ "```" +:+ trail)
      with (String "`" ("``json" +:+ inner +:+ "```" +:+ trail)).
    rewrite drop_while_all_app by (assumption || reflexivity).
    change (String "`" ("``json" +:+ inner +:+ "```" +:+ trail))
      with ("```json" +:+ inner +:+ "```" +:+ trail).
    assert ("```json" +:+ inner +:+ "```" +:+ trail
            = (("```json" +:+ inner +:+ "``") +:+ "`") +:+ trail) as ->.
    { rewrite !app_assoc_s. reflexivity. }
    rewrite drop_while_end_all_suffix by assumption.
    rewrite drop_while_end_last by reflexivity.
    rewrite !app_assoc_s. reflexivity. }
  assert (Str.lstrip "```json" ("```json" +:+ inner +:+ "```") = inner +:+ "```") as ->.
  { unfold Str.lstrip.
    change ("```json" +:+ inner +:+ "```")
      with (String "`" (String "`" (String "`" (String "j" (String "s"
             (String "o" (String "n" (inner +:+ "```")))))))).
    rewrite !drop_while_cons_true by reflexivity.
    change (Str.drop_while (fun c => Chars.mem c "```json") (inner +:+ "```"))
      with (Str.lstrip "```json" (inner +:+ "```")).
    unfold inner, object_text. rewrite !app_assoc_s.
    change (pad1 +:+ "{" +:+ body +:+ "}" +:+ pad2 +:+ "```")
      with (object_text pad1 body (pad2 +:+ "```")).
    apply object_text_lstrip, H1. }
  unfold Str.rstrip.
  rewrite drop_while_end_all_suffix by reflexivity.
  apply object_text_rstrip, H2.
Qed.

(** C9: for a reply that is a JSON object inside a fence tagged json (white
    space allowed around the fence and around the braces), stripping and then
    parsing gives what parsing the fenced content itself gives, whatever the
    parser: the stripping step returns exactly the fenced content. *)
Theorem strip_then_parse_fenced_object {A : Type} (json_loads : string → A)
    (lead trail pad1 body pad2 : string) :
  all_chars Chars.is_space lead = true →
  all_chars Chars.is_space trail = true →
  all_chars json_ws pad1 = true →
  all_chars json_ws pad2 = true →
  parse_reply json_loads
    (fenced_reply lead (object_text pad1 body pad2) trail)
  = json_loads (object_text pad1 body pad2).
Proof.
  intros Hl Ht H1 H2. unfold parse_reply.
  rewrite strip_reply_fenced by assumption. reflexivity.
Qed.

Lemma strip_then_parse_fenced_object_witness :
  all_chars Chars.is_space " " = true
  ∧ all_chars Chars.is_space "
" = true
  ∧ all_chars json_ws "
" = true
  ∧ all_chars json_ws "
" = true
  ∧ parse_reply String.length
      (fenced_reply " " (object_text "
" " inputs: [], outputs: [], gates: [] " "
") "
")
    = String.length (object_text "
" " inputs: [], outputs: [], gates: [] " "
").
Proof.
  do 4 (split; [reflexivity|]).
  apply (strip_then_parse_fenced_object String.length " " "
" "
" " inputs: [], outputs: [], gates: [] " "
"); reflexivity.
Defined.

(** ** The gate loop of the renderer *)

Lemma add_edges_fold (gid : string) (ws : list string) (st : render_state) :
  fold_left (fun acc g_input => add_edge g_input gid g_input acc) ws st
  = (st.1 ++ ((fun w => Edge w gid) <$> ws), list_to_set ws ∪ st.2).
Proof.
  revert st. induction ws as [|w ws IH]; intros [body seen]; simpl.
  - rewrite app_nil_r. f_equal. set_solver.
  - rewrite IH. unfold add_edge. simpl. rewrite <- app_assoc. f_equal.
    apply leibniz_equiv. set_solver.
Qed.

Lemma render_gate_spec (i : nat) (g : gate) (st : render_state) :
  render_gate i g st
  = (st.1 ++ gate_stmts i g, list_to_set (gate_wires g) ∪ st.2).
Proof.
  destruct st as [body seen]. unfold render_gate. rewrite add_edges_fold.
  unfold gate_stmts, gate_wires, gate_out_edge.
  destruct (g_output g) as [o|] eqn:Ho; simpl.
  - destruct (Str.is_empty o) eqn:He; simpl.
    + rewrite <- app_assoc. reflexivity.
    + rewrite <- !app_assoc. simpl. f_equal. apply leibniz_equiv. set_solver.
  - rewrite <- app_assoc. reflexivity.
Qed.

Lemma render_gates_spec (i : nat) (gs : list gate) (st : render_state) :
  render_gates i gs st
  = (st.1 ++ all_gate_stmts i gs,
     list_to_set (flat_map gate_wires gs) ∪ st.2).
Proof.
  revert i st. induction gs as [|g gs IH]; intros i [body seen]; simpl.
  - rewrite app_nil_r. f_equal. set_solver.
  - rewrite IH, render_gate_spec. simpl. rewrite <- app_assoc. f_equal.
    apply leibniz_equiv. set_solver.
Qed.

(** The diagram of a netlist without the key "error", statement by statement. *)
Lemma diagram_spec (nl : netlist) :
  error nl = None →
  create_gate_level_diagram nl
  = new_digraph
    ++ [cluster "cluster_inputs" "Inputs" color_input (default [] (inputs nl));
        cluster "cluster_outputs" "Outputs" color_output (default [] (outputs nl))]
    ++ all_gate_stmts 0 (default [] (gates nl))
    ++ (junction_node <$>
          filter (fun node => is_junction nl node = true)
            (elements (list_to_set (flat_map gate_wires (default [] (gates nl)))
                       ∪ (list_to_set (default [] (outputs nl))
                          ∪ (list_to_set (default [] (inputs nl)) ∪ ∅))
                       : gset string))).
Proof.
  intros He. unfold create_gate_level_diagram. rewrite He.
  rewrite render_gates_spec. cbv zeta. simpl fst. simpl snd.
  rewrite <- !app_assoc. reflexivity.
Qed.

(** ** Reading the rendered diagram *)

Lemma filter_fmap_none {A B} (P : B → Prop) `{∀ x, Decision (P x)}
    (f : A → B) (l : list A) :
  (∀ x, ¬ P (f x)) → filter P (f <$> l) = [].
Proof.
  intros Hf. induction l as [|x l IH]; [reflexivity|].
  rewrite fmap_cons, filter_cons_False by apply Hf. exact IH.
Qed.

Lemma filter_fmap_all {A B} (P : B → Prop) `{∀ x, Decision (P x)}
    (f : A → B) (l : list A) :
  (∀ x, P (f x)) → filter P (f <$> l) = f <$> l.
Proof.
  intros Hf. induction l as [|x l IH]; [reflexivity|].
  rewrite fmap_cons, filter_cons_True by apply Hf. rewrite IH. reflexivity.
Qed.

Lemma nodes_fmap_node (f : string → stmt) (l : list string) :
  (∀ x, stmt_nodes (f x) = [f x]) → nodes (f <$> l) = f <$> l.
Proof.
  intros Hf. induction l as [|x l IH]; [reflexivity|].
  rewrite fmap_cons. change (nodes (f x :: (f <$> l)))
    with (stmt_nodes (f x) ++ nodes (f <$> l)).
  rewrite Hf, IH. reflexivity.
Qed.

Lemma edges_fmap_node (f : string → stmt) (l : list string) :
  (∀ x, stmt_edges (f x) = []) → edges (f <$> l) = [].
Proof.
  intros Hf. induction l as [|x l IH]; [reflexivity|].
  rewrite fmap_cons. change (edges (f x :: (f <$> l)))
    with (stmt_edges (f x) ++ edges (f <$> l)).
  rewrite Hf, IH. reflexivity.
Qed.

Lemma flat_map_stmt_nodes (body : list stmt) : flat_map stmt_nodes body = nodes body.
Proof. reflexivity. Qed.

Lemma nodes_cluster (name label color : string) (ports : list string) :
  nodes [cluster name label color ports] = port_node color <$> ports.
Proof.
  unfold nodes, cluster. simpl. rewrite app_nil_r.
  rewrite flat_map_stmt_nodes. apply nodes_fmap_node. reflexivity.
Qed.

Lemma edges_cluster (name label color : string) (ports : list string) :
  edges [cluster name label color ports] = [].
Proof.
  unfold edges, cluster. simpl. rewrite app_nil_r.
  change (flat_map stmt_edges (port_node color <$> ports))
    with (edges (port_node color <$> ports)).
  apply edges_fmap_node. reflexivity.
Qed.

Lemma nodes_gate_stmts (i : nat) (g : gate) :
  nodes (gate_stmts i g)
  = [Node (gate_id i g) (Some (gate_label g)) [("fillcolor", color_gate)]].
Proof.
  unfold gate_stmts.
  change (nodes (?s :: ?l)) with (stmt_nodes s ++ nodes l). simpl stmt_nodes.
  rewrite nodes_app. unfold gate_out_edge.
  assert (nodes ((fun w => Edge w (gate_id i g)) <$> default [] (g_inputs g)) = []) as ->.
  { induction (default [] (g_inputs g)) as [|w ws IH]; [reflexivity|exact IH]. }
  destruct (truthy (g_output g)); reflexivity.
Qed.

Lemma edges_gate_stmts (i : nat) (g : gate) :
  edges (gate_stmts i g)
  = (if truthy (g_output g) then [(gate_id i g, default "" (g_output g))] else [])
    ++ ((fun w => (w, gate_id i g)) <$> default [] (g_inputs g)).
Proof.
  unfold gate_stmts.
  change (edges (?s :: ?l)) with (stmt_edges s ++ edges l). simpl stmt_edges.
  rewrite edges_app. unfold gate_out_edge.
  assert (edges ((fun w => Edge w (gate_id i g)) <$> default [] (g_inputs g))
          = (fun w => (w, gate_id i g)) <$> default [] (g_inputs g)) as ->.
  { induction (default [] (g_inputs g)) as [|w ws IH]; [reflexivity|].
    rewrite !fmap_cons.
    change (edges (?s :: ?l)) with (stmt_edges s ++ edges l).
    rewrite IH. reflexivity. }
  destruct (truthy (g_output g)); reflexivity.
Qed.

Lemma nodes_all_gate_stmts_not_junction (i : nat) (gs : list gate) :
  filter (fun s => is_junction_node s) (nodes (all_gate_stmts i gs)) = [].
Proof.
  revert i. induction gs as [|g gs IH]; intros i; [reflexivity|].
  cbn [all_gate_stmts].
  rewrite nodes_app, filter_app, IH, nodes_gate_stmts. reflexivity.
Qed.

Lemma port_node_not_junction (color port : string) :
  ¬ is_junction_node (port_node color port).
Proof.
  unfold is_junction_node, has_attr. simpl. intros H. exact H.
Qed.

Lemma junction_node_is_junction (node : string) :
  is_junction_node (junction_node node).
Proof.
  unfold is_junction_node, has_attr. simpl. exact I.
Qed.

Lemma junction_names_diagram (nl : netlist) :
  error nl = None →
  junction_names (create_gate_level_diagram nl)
  = filter (fun node => is_junction nl node = true)
      (elements (list_to_set (flat_map gate_wires (default [] (gates nl)))
                 ∪ (list_to_set (default [] (outputs nl))
                    ∪ (list_to_set (default [] (inputs nl)) ∪ ∅))
                 : gset string)).
Proof.
  intros He. unfold junction_names. rewrite (diagram_spec nl He).
  rewrite !nodes_app, !filter_app.
  change [cluster "cluster_inputs" "Inputs" color_input (default [] (inputs nl));
          cluster "cluster_outputs" "Outputs" color_output (default [] (outputs nl))]
    with ([cluster "cluster_inputs" "Inputs" color_input (default [] (inputs nl))]
          ++ [cluster "cluster_outputs" "Outputs" color_output (default [] (outputs nl))]).
  rewrite nodes_app, filter_app, !nodes_cluster.
  rewrite !filter_fmap_none by apply port_node_not_junction.
  rewrite nodes_all_gate_stmts_not_junction.
  rewrite nodes_fmap_node by reflexivity.
  rewrite filter_fmap_all by apply junction_node_is_junction.
  simpl. rewrite <- list_fmap_compose.
  apply list_fmap_id.
Qed.

Lemma cluster_nodes_app (name : string) (d1 d2 : digraph) :
  cluster_nodes name (d1 ++ d2) = cluster_nodes name d1 ++ cluster_nodes name d2.
Proof. unfold cluster_nodes. apply flat_map_app. Qed.

Lemma cluster_nodes_fmap_node (name : string) (l : list string) :
  cluster_nodes name (junction_node <$> l) = [].
Proof. induction l as [|x l IH]; [reflexivity|exact IH]. Qed.

Lemma cluster_nodes_gate_stmts (name : string) (i : nat) (gs : list gate) :
  cluster_nodes name (all_gate_stmts i gs) = [].
Proof.
  revert i. induction gs as [|g gs IH]; intros i; [reflexivity|].
  cbn [all_gate_stmts]. rewrite cluster_nodes_app, IH, app_nil_r.
  unfold gate_stmts, gate_out_edge.
  change (cluster_nodes name (?s :: ?l)) with (cluster_nodes name [s] ++ cluster_nodes name l).
  rewrite cluster_nodes_app.
  assert (cluster_nodes name
            ((fun w => Edge w (gate_id i g)) <$> default [] (g_inputs g)) = []) as ->.
  { induction (default [] (g_inputs g)) as [|w ws IHw]; [reflexivity|exact IHw]. }
  destruct (truthy (g_output g)); reflexivity.
Qed.

Lemma input_group_names_diagram (nl : netlist) :
  error nl = None →
  input_group_names (create_gate_level_diagram nl) = default [] (inputs nl).
Proof.
  intros He. unfold input_group_names. rewrite (diagram_spec nl He).
  rewrite !cluster_nodes_app, cluster_nodes_gate_stmts, cluster_nodes_fmap_node.
  unfold cluster_nodes at 1 2. simpl. rewrite !app_nil_r.
  rewrite flat_map_stmt_nodes, nodes_fmap_node by reflexivity.
  rewrite <- list_fmap_compose. apply list_fmap_id.
Qed.

Lemma edges_diagram (nl : netlist) :
  error nl = None →
  edges (create_gate_level_diagram nl)
  = edges (all_gate_stmts 0 (default [] (gates nl))).
Proof.
  intros He. rewrite (diagram_spec nl He).
  change [cluster "cluster_inputs" "Inputs" color_input (default [] (inputs nl));
          cluster "cluster_outputs" "Outputs" color_output (default [] (outputs nl))]
    with ([cluster "cluster_inputs" "Inputs" color_input (default [] (inputs nl))]
          ++ [cluster "cluster_outputs" "Outputs" color_output (default [] (outputs nl))]).
  rewrite !edges_app, !edges_cluster.
  rewrite edges_fmap_node by reflexivity.
  change (edges new_digraph) with (@nil (string * string)).
  cbn [app]. apply app_nil_r.
Qed.

Lemma gate_stmts_all_gate_nodes (i : nat) (gs : list gate) :
  filter (fun s => is_gate_node s) (nodes (all_gate_stmts i gs))
  = nodes (all_gate_stmts i gs).
Proof.
  revert i. induction gs as [|g gs IH]; intros i; [reflexivity|].
  cbn [all_gate_stmts]. rewrite !nodes_app, filter_app, IH, nodes_gate_stmts.
  reflexivity.
Qed.

Lemma gate_nodes_diagram (nl : netlist) :
  error nl = None →
  gate_nodes (create_gate_level_diagram nl)
  = nodes (all_gate_stmts 0 (default [] (gates nl))).
Proof.
  intros He. unfold gate_nodes. rewrite (diagram_spec nl He).
  change [cluster "cluster_inputs" "Inputs" color_input (default [] (inputs nl));
          cluster "cluster_outputs" "Outputs" color_output (default [] (outputs nl))]
    with ([cluster "cluster_inputs" "Inputs" color_input (default [] (inputs nl))]
          ++ [cluster "cluster_outputs" "Outputs" color_output (default [] (outputs nl))]).
  rewrite !nodes_app, !filter_app, !nodes_cluster.
  rewrite !filter_fmap_none by (intros x H; exact H).
  rewrite nodes_fmap_node by reflexivity.
  rewrite filter_fmap_none by (intros x H; exact H).
  rewrite gate_stmts_all_gate_nodes.
  change (nodes new_digraph) with (@nil stmt).
  cbn [app]. rewrite app_nil_r. reflexivity.
Qed.

Lemma gate_id_0_and (o : option string) (ws : option (list string)) :
  gate_id 0 (Gate (Some "and") o ws) = "gate_0_and".
Proof. vm_compute. reflexivity. Qed.

(** ** The one-gate netlist *)

Lemma is_junction_and_netlist (ins outs : list string) (a b y x : string) :
  is_junction (and_netlist ins outs a b y) x = true ↔ ((x ∉ ins) ∧ (x ∉ outs) ∧ x ≠ y).
Proof.
  unfold is_junction, and_netlist, in_list, is_gate_output. simpl.
  rewrite !andb_true_iff, !negb_true_iff, orb_false_r, !bool_decide_eq_false.
  split.
  - intros [[H1 H2] H3]. split; [exact H1|]. split; [exact H2|]. congruence.
  - intros [H1 [H2 H3]]. split; [split; assumption|]. congruence.
Qed.

(** C6: the one-gate netlist (with a non-empty output name [y]) is drawn as
    exactly one gate node labelled AND, and exactly the edges gate -> y,
    a -> gate, b -> gate; each of [a] and [b] is drawn in the input group
    if and only if it is a declared input, and as a junction node if and only
    if it is neither a declared input, nor a declared output, nor [y]. *)
Theorem and_gate_diagram (ins outs : list string) (a b y : string) :
  y ≠ "" →
  let d := create_gate_level_diagram (and_netlist ins outs a b y) in
  gate_nodes d = [Node "gate_0_and" (Some "AND") [("fillcolor", color_gate)]]
  ∧ edges d = [("gate_0_and", y); (a, "gate_0_and"); (b, "gate_0_and")]
  ∧ ∀ x, x = a ∨ x = b →
      (x ∈ input_group_names d ↔ x ∈ ins)
      ∧ (x ∈ junction_names d ↔ ((x ∉ ins) ∧ (x ∉ outs) ∧ x ≠ y)).
Proof.
  intros Hy d. subst d.
  assert (truthy (Some y) = true) as Ht.
  { destruct y; [contradiction|reflexivity]. }
  split; [|split].
  - rewrite gate_nodes_diagram by reflexivity. simpl default.
    cbn [all_gate_stmts]. rewrite app_nil_r, nodes_gate_stmts, gate_id_0_and.
    reflexivity.
  - rewrite edges_diagram by reflexivity. simpl default.
    cbn [all_gate_stmts]. rewrite app_nil_r, edges_gate_stmts, gate_id_0_and.
    cbn [g_output]. rewrite Ht. reflexivity.
  - intros x Hx. split.
    + rewrite input_group_names_diagram by reflexivity. reflexivity.
    + rewrite junction_names_diagram by reflexivity.
      rewrite list_elem_of_filter, is_junction_and_netlist, elem_of_elements.
      split; [intros [H _]; exact H|intros H; split; [exact H|]].
      simpl default. unfold gate_wires. cbn [flat_map g_output g_inputs].
      rewrite Ht. simpl. set_solver.
Qed.

Lemma and_gate_diagram_witness :
  "y" ≠ ""
  ∧ edges (create_gate_level_diagram (and_netlist ["a"] ["y"] "a" "w" "y"))
    = [("gate_0_and", "y"); ("a", "gate_0_and"); ("w", "gate_0_and")].
Proof.
  split; [discriminate|].
  apply (and_gate_diagram ["a"] ["y"] "a" "w" "y"). discriminate.
Defined.

(** The reading "input-group node if and only if declared input, otherwise
    junction node" fails when [a] is a declared output: it is drawn in the
    output group, not as a junction. *)
Lemma declared_output_is_not_junction :
  ¬ input_group_else_junction [] ["a"] "a" "b" "y".
Proof.
  intros H. destruct (H "a" (or_introl eq_refl)) as [_ Hj].
  assert (junction_names (create_gate_level_diagram (and_netlist [] ["a"] "a" "b" "y"))
          = ["b"]) as E by (vm_compute; reflexivity).
  rewrite E in Hj. 
  assert ("a" ∉ ([] : list string)) as Hn by (apply not_elem_of_nil).
  specialize (Hj Hn). apply list_elem_of_singleton in Hj. discriminate.
Qed.

(** ** Gate identifiers *)

Lemma pretty_N_char_digit (n : N) : is_digit (pretty_N_char n) = true.
Proof. unfold pretty_N_char. repeat case_match; reflexivity. Qed.

Lemma pretty_N_go_digits (x : N) (s : string) :
  all_chars is_digit s = true → all_chars is_digit (pretty_N_go x s) = true.
Proof.
  revert s. induction (N.lt_wf_0 x) as [x _ IH]. intros s Hs.
  destruct (decide (0 < x)%N) as [Hx|Hx].
  - rewrite pretty_N_go_step by exact Hx. apply IH.
    + apply N.div_lt; [exact Hx|reflexivity].
    + simpl. rewrite pretty_N_char_digit. exact Hs.
  - assert (x = 0%N) as -> by lia. rewrite pretty_N_go_0. exact Hs.
Qed.

Lemma pretty_nat_digits (i : nat) : all_chars is_digit (pretty i) = true.
Proof.
  unfold pretty, pretty_nat, pretty, pretty_N.
  destruct (decide (N.of_nat i = 0%N)); [reflexivity|].
  apply pretty_N_go_digits. reflexivity.
Qed.

Lemma digits_then_underscore (a b t t' : string) :
  all_chars is_digit a = true → all_chars is_digit b = true →
  a +:+ "_" +:+ t = b +:+ "_" +:+ t' → a = b.
Proof.
  revert b. induction a as [|x a IH]; intros [|y b] Ha Hb E.
  - reflexivity.
  - rewrite app_empty_l, app_cons in E. injection E as E _. subst y.
    simpl in Hb. discriminate.
  - rewrite app_empty_l, app_cons in E. injection E as E _. subst x.
    simpl in Ha. discriminate.
  - rewrite !app_cons in E. injection E as -> E.
    simpl in Ha, Hb.
    apply andb_true_iff in Ha as [_ Ha]. apply andb_true_iff in Hb as [_ Hb].
    f_equal. apply IH; assumption.
Qed.

(** Two gates at different positions of the list never share an identifier. *)
Lemma gate_id_inj (i j : nat) (g g' : gate) :
  gate_id i g = gate_id j g' → i = j.
Proof.
  unfold gate_id. intros E.
  apply (inj (String.app "gate_")) in E.
  apply digits_then_underscore in E; [|apply pretty_nat_digits..].
  apply (inj pretty) in E. exact E.
Qed.


(** ** Facts on the matcher *)

Lemma run_lit_no_prefix (fl : flags) (s : string) (st : mstate)
    (k : mstate → option mstate) :
  ignorecase fl = false → Str.prefix s (rest st) = false →
  run fl (Lit s) st k = None.
Proof.
  intros Hfl. revert st. induction s as [|c s IH]; intros [b t cs] Hp.
  - discriminate.
  - simpl in Hp. destruct t as [|x t]; [reflexivity|].
    simpl. unfold step_char, chr_matches. simpl. rewrite Hfl.
    destruct (Chars.eqb c x) eqn:Hcx; [|reflexivity].
    simpl in Hp. apply IH. exact Hp.
Qed.



Lemma chars_eqb_sym (a b : ascii) : Chars.eqb a b = Chars.eqb b a.
Proof. apply Ascii.eqb_sym. Qed.




(** ** Repetition over a character class *)

Section ClassStar.
Variable body : mstate → (mstate → option mstate) → option mstate.
Variable p : ascii → bool.
Hypothesis body_class : ∀ st k, body st k = step_char p st k.

(** A greedy repetition whose continuation succeeds after the longest
    run of [p] stops there. *)
Lemma star_class_longest (k : mstate → option mstate) (n : nat)
    (b : option ascii) (s : string) (cs : list (nat * string)) (r : mstate) :
  String.length s ≤ n →
  k (MState (skip_before p b s) (Str.drop_while p s) cs) = Some r →
  star_loop body true k n (MState b s cs) = Some r.
Proof.
  revert b s. induction n as [|n IH]; intros b s Hn Hk.
  - destruct s; [exact Hk|simpl in Hn; lia].
  - cbn [star_loop]. rewrite body_class. unfold step_char. cbn [rest].
    destruct s as [|c s]; [exact Hk|].
    cbn [skip_before Str.drop_while] in Hk.
    destruct (p c) eqn:Hp; [|exact Hk].
    unfold advance. cbn [rest caps String.length].
    rewrite (proj2 (Nat.ltb_lt _ _)) by lia.
    rewrite (IH (Some c) s); [reflexivity| |exact Hk].
    simpl in Hn. lia.
Qed.

(** When the continuation cannot start on a character of the class, only
    the longest run matters. *)
Lemma star_class_skip (k : mstate → option mstate) (n : nat)
    (b : option ascii) (s : string) (cs : list (nat * string)) :
  (∀ b' c s' cs', p c = true → k (MState b' (String c s') cs') = None) →
  String.length s ≤ n →
  star_loop body true k n (MState b s cs)
  = k (MState (skip_before p b s) (Str.drop_while p s) cs).
Proof.
  intros Hk. revert b s. induction n as [|n IH]; intros b s Hn.
  - destruct s; [reflexivity|simpl in Hn; lia].
  - cbn [star_loop]. rewrite body_class. unfold step_char. cbn [rest].
    destruct s as [|c s]; [reflexivity|].
    cbn [skip_before Str.drop_while].
    destruct (p c) eqn:Hp; [|reflexivity].
    unfold advance. cbn [rest caps String.length].
    rewrite (proj2 (Nat.ltb_lt _ _)) by lia.
    rewrite (IH (Some c) s) by (simpl in Hn; lia).
    rewrite (Hk b c s cs Hp).
    destruct (k _); reflexivity.
Qed.
End ClassStar.

Lemma run_lit_prefix (fl : flags) (lit : string) (b : option ascii) (s : string)
    (cs : list (nat * string)) (k : mstate → option mstate) :
  ignorecase fl = false → Str.prefix lit s = true →
  run fl (Lit lit) (MState b s cs) k
  = k (MState (lit_before lit b) (drop (String.length lit) s) cs).
Proof.
  intros Hfl. revert b s. induction lit as [|c lit IH]; intros b s Hp.
  - destruct s; reflexivity.
  - destruct s as [|x s]; [discriminate|].
    cbn [Str.prefix] in Hp. apply andb_true_iff in Hp as [Hc Hp].
    cbn [Lit run]. unfold step_char, chr_matches. cbn [rest]. rewrite Hfl, Hc.
    unfold advance. cbn [caps]. rewrite (IH (Some x) s Hp).
    unfold Chars.eqb in Hc. apply Ascii.eqb_eq in Hc. subst x. reflexivity.
Qed.

(** ** The pattern of [get_module_names] at one position *)

Lemma space_not_m (c : ascii) : Chars.is_space c = true → Chars.eqb "m" c = false.
Proof. destruct c as [[] [] [] [] [] [] [] []]; intros H; try reflexivity; discriminate H. Qed.

Lemma space_not_word (c : ascii) : Chars.is_space c = true → Chars.is_word c = false.
Proof. destruct c as [[] [] [] [] [] [] [] []]; intros H; try reflexivity; discriminate H. Qed.

Lemma nl_is_space (c : ascii) : is_nl c = true → Chars.is_space c = true.
Proof. unfold is_nl, Chars.eqb. intros H. apply Ascii.eqb_eq in H. subst c. reflexivity. Qed.

Lemma word_not_nl (c : ascii) : Chars.is_word c = true → is_nl c = false.
Proof.
  intros Hw. destruct (is_nl c) eqn:Hn; [|reflexivity].
  apply nl_is_space, space_not_word in Hn. congruence.
Qed.

Lemma length_drop_while_le (p : ascii → bool) (s : string) :
  String.length (Str.drop_while p s) ≤ String.length s.
Proof.
  induction s as [|c s IH]; [reflexivity|]. simpl.
  destruct (p c); simpl; lia.
Qed.

Lemma take_drop_while (p : ascii → bool) (s : string) :
  Str.take (String.length s - String.length (Str.drop_while p s)) s
  = Str.take_while p s.
Proof.
  induction s as [|c s IH]; [reflexivity|]. cbn [Str.drop_while Str.take_while].
  destruct (p c).
  - pose proof (length_drop_while_le p s) as Hle. cbn [String.length].
    replace (S (String.length s) - String.length (Str.drop_while p s))
      with (S (String.length s - String.length (Str.drop_while p s))) by lia.
    cbn [Str.take]. rewrite IH. reflexivity.
  - rewrite Nat.sub_diag. reflexivity.
Qed.

Lemma names_run (b : option ascii) (s : string) :
  ∃ be,
    run module_names_flags module_names_regex (MState b s []) Some
    = if at_bol module_names_flags (MState b s []) then
        match decl_at s with
        | Some (name, r) => Some (MState be r [(1, name)])
        | None => None
        end
      else None.
Proof.
  unfold module_names_regex, Plus. cbn [run].
  destruct (at_bol module_names_flags (MState b s [])); [|exists None; reflexivity].
  cbn [rest].
  rewrite (star_class_skip _ Chars.is_space (fun st k => eq_refl));
    [|intros b' c s' cs' Hc; cbn [Lit run]; unfold step_char, chr_matches;
      cbn [rest ignorecase module_names_flags]; rewrite (space_not_m c Hc);
      reflexivity|reflexivity].
  unfold decl_at.
  set (s1 := Str.drop_while Chars.is_space s).
  destruct (Str.prefix "module" s1) eqn:Hpre;
    [|exists None; rewrite run_lit_no_prefix by (reflexivity || exact Hpre);
      reflexivity].
  rewrite run_lit_prefix by (reflexivity || exact Hpre).
  change (String.length "module") with 6. cbn [andb].
  unfold step_char at 1. cbn [rest].
  destruct (drop 6 s1) as [|c s2] eqn:Hs2; [exists None; reflexivity|].
  cbn [head_is]. destruct (Chars.is_space c) eqn:Hc; [|exists None; reflexivity].
  unfold advance. cbn [caps rest].
  rewrite (star_class_skip _ Chars.is_space (fun st k => eq_refl));
    [|intros b' c' s' cs' Hc'; unfold step_char; cbn [rest];
      rewrite (space_not_word c' Hc'); reflexivity|reflexivity].
  cbn [Str.drop_while]. rewrite Hc.
  set (s3 := Str.drop_while Chars.is_space s2).
  set (b3 := skip_before Chars.is_space (Some c) s2).
  unfold step_char at 1. cbn [rest].
  destruct s3 as [|w s4] eqn:Hs3; [exists None; reflexivity|].
  cbn [Str.take_while Str.drop_while].
  destruct (Chars.is_word w) eqn:Hw; [|exists None; reflexivity].
  cbn [Str.is_empty]. unfold advance. cbn [caps rest].
  eexists.
  erewrite star_class_longest; [reflexivity|reflexivity|reflexivity|].
  cbn [before rest caps]. f_equal. f_equal. f_equal. f_equal.
  unfold consumed. cbn [rest].
  pose proof (take_drop_while Chars.is_word (String w s4)) as E.
  cbn [Str.take_while Str.drop_while] in E. rewrite Hw in E. exact E.
Qed.

Lemma match_at_names (b : option ascii) (s : string) :
  ∃ be,
    match_at module_names_flags module_names_regex b s
    = if at_bol module_names_flags (MState b s []) then
        match decl_at s with
        | Some (name, r) =>
            Some (RMatch (Str.take (String.length s - String.length r) s)
                         (MState be r [(1, name)]))
        | None => None
        end
      else None.
Proof.
  destruct (names_run b s) as [be E]. exists be. unfold match_at. rewrite E.
  destruct (at_bol _ _); [|reflexivity].
  destruct (decl_at s) as [[name r]|]; reflexivity.
Qed.

(** ** Positions inside a text *)

Lemma drop_while_split (p : ascii → bool) (s : string) :
  ∃ pre, s = pre +:+ Str.drop_while p s.
Proof.
  induction s as [|c s [pre IH]]; [exists ""; reflexivity|].
  cbn [Str.drop_while]. destruct (p c).
  - exists (String c pre). rewrite app_cons, <- IH. reflexivity.
  - exists "". reflexivity.
Qed.

Lemma prefix_split (lit s : string) :
  Str.prefix lit s = true → s = lit +:+ drop (String.length lit) s.
Proof.
  revert s. induction lit as [|a lit IH]; intros s H.
  - destruct s; reflexivity.
  - destruct s as [|c s]; [discriminate|].
    cbn [Str.prefix] in H. apply andb_true_iff in H as [Hac H].
    unfold Chars.eqb in Hac. apply Ascii.eqb_eq in Hac. subst c.
    cbn [String.length drop]. rewrite app_cons, <- (IH s H). reflexivity.
Qed.

Lemma take_while_split (p : ascii → bool) (s : string) :
  s = Str.take_while p s +:+ Str.drop_while p s.
Proof.
  induction s as [|c s IH]; [reflexivity|].
  cbn [Str.take_while Str.drop_while]. destruct (p c); [|reflexivity].
  rewrite app_cons, <- IH. reflexivity.
Qed.

Lemma take_while_last (p : ascii → bool) (s : string) :
  Str.is_empty (Str.take_while p s) = false →
  ∃ init c, Str.take_while p s = init +:+ String c "" ∧ p c = true.
Proof.
  induction s as [|c s IH]; [discriminate|].
  cbn [Str.take_while]. destruct (p c) eqn:Hp; [|discriminate]. intros _.
  destruct (Str.is_empty (Str.take_while p s)) eqn:He.
  - apply is_empty_true in He. rewrite He. exists "", c. split; [reflexivity|exact Hp].
  - destruct (IH eq_refl) as [init [c' [E Hc']]]. rewrite E.
    exists (String c init), c'. split; [reflexivity|exact Hc'].
Qed.

(** A declaration found at [s] ends on a word character, just before the
    text that is left. *)
Lemma decl_at_split (s name r : string) :
  decl_at s = Some (name, r) →
  ∃ pre c, s = pre +:+ String c r ∧ Chars.is_word c = true.
Proof.
  unfold decl_at.
  destruct (drop_while_split Chars.is_space s) as [pre1 E1].
  set (s1 := Str.drop_while Chars.is_space s) in *.
  destruct (Str.prefix "module" s1) eqn:Hpre; [|discriminate].
  cbn [andb]. destruct (head_is Chars.is_space (drop 6 s1)); [|discriminate].
  apply prefix_split in Hpre. change (String.length "module") with 6 in Hpre.
  destruct (drop_while_split Chars.is_space (drop 6 s1)) as [pre2 E2].
  set (s3 := Str.drop_while Chars.is_space (drop 6 s1)) in *.
  destruct (Str.is_empty (Str.take_while Chars.is_word s3)) eqn:He; [discriminate|].
  intros H. injection H as Hn Hr.
  destruct (take_while_last _ _ He) as [init [c [E3 Hc]]].
  exists (pre1 +:+ "module" +:+ pre2 +:+ init), c. split; [|exact Hc].
  rewrite E1, Hpre, E2, (take_while_split Chars.is_word s3), E3, Hr.
  rewrite !app_assoc_s. reflexivity.
Qed.

Lemma length_app_s (a b : string) :
  String.length (a +:+ b) = String.length a + String.length b.
Proof. induction a as [|c a IH]; [reflexivity|]. rewrite app_cons. simpl. rewrite IH. reflexivity. Qed.

Lemma drop_app_length (a b : string) : drop (String.length a) (a +:+ b) = b.
Proof. induction a as [|c a IH]; [destruct b; reflexivity|exact IH]. Qed.

Lemma char_before_app (b : option ascii) (a : string) (c : ascii) (r : string) :
  char_before b (a +:+ String c r) (S (String.length a)) = Some c.
Proof. revert b. induction a as [|x a IH]; intros b; [reflexivity|apply IH]. Qed.

Lemma length_take (n : nat) (s : string) :
  n ≤ String.length s → String.length (Str.take n s) = n.
Proof.
  revert s. induction n as [|n IH]; intros s Hn; [reflexivity|].
  destruct s as [|c s]; [simpl in Hn; lia|].
  simpl. rewrite IH; [reflexivity|simpl in Hn; lia].
Qed.

Lemma scan_skip (fl : flags) (r : regex) (b : option ascii) (s : string) (n : nat) :
  n ≤ String.length s →
  scan fl r b s n = scan fl r (char_before b s n) (drop n s) 0.
Proof.
  revert b s. induction n as [|n IH]; intros b s Hn.
  - destruct s; reflexivity.
  - destruct s as [|c s]; [simpl in Hn; lia|].
    cbn [scan char_before drop]. apply IH. simpl in Hn. lia.
Qed.

(** ** The scan of [get_module_names] *)

Lemma names_not_at_bol (c : ascii) (s : string) :
  is_nl c = false →
  match_at module_names_flags module_names_regex (Some c) s = None.
Proof.
  intros Hc. destruct (match_at_names (Some c) s) as [be ->].
  unfold at_bol. cbn [before multiline module_names_flags andb].
  unfold is_nl in Hc. rewrite Hc. reflexivity.
Qed.

Lemma names_from_cons_none (b : option ascii) (c : ascii) (s : string) :
  match_at module_names_flags module_names_regex b (String c s) = None →
  names_from b (String c s) = names_from (Some c) s.
Proof. intros H. unfold names_from. cbn [scan]. rewrite H. reflexivity. Qed.

Lemma is_nl_eq (c : ascii) : is_nl c = true → c = "010"%char.
Proof. unfold is_nl, Chars.eqb. apply Ascii.eqb_eq. Qed.

(** From the middle of a line nothing is found before the next line. *)
Lemma names_from_mid (c : ascii) (s : string) :
  is_nl c = false → names_from (Some c) s = names_after_line s.
Proof.
  revert c. induction s as [|x s IH]; intros c Hc.
  - unfold names_from. cbn [scan]. rewrite names_not_at_bol by exact Hc. reflexivity.
  - rewrite names_from_cons_none by (apply names_not_at_bol, Hc).
    unfold names_after_line. cbn [after_line].
    destruct (is_nl x) eqn:Hx.
    + apply is_nl_eq in Hx. subst x. reflexivity.
    + apply IH, Hx.
Qed.

(** From a line start: the declaration found there, if any, then the
    lines after it. *)
Lemma names_from_bol (b : option ascii) (s : string) :
  at_bol module_names_flags (MState b s []) = true →
  names_from b s
  = match decl_at s with
    | Some (name, r) => name :: names_after_line r
    | None => names_after_line s
    end.
Proof.
  intros Hb. destruct (match_at_names b s) as [be E]. rewrite Hb in E.
  destruct (decl_at s) as [[name r]|] eqn:Hd.
  - destruct (decl_at_split _ _ _ Hd) as [pre [c [Hs Hc]]].
    unfold names_from. 
    assert (String.length s - String.length r = S (String.length pre)) as HL.
    { rewrite Hs, length_app_s. simpl. lia. }
    rewrite HL in E.
    destruct s as [|x s']; [destruct pre; discriminate|].
    cbn [scan]. rewrite E. cbn [whole]. rewrite fmap_cons.
    f_equal. 
    rewrite length_take by (rewrite Hs, length_app_s; simpl; lia).
    cbn [Nat.sub]. rewrite Nat.sub_0_r.
    rewrite scan_skip by (apply (f_equal String.length) in Hs;
                          rewrite length_app_s in Hs; simpl in Hs; lia).
    change (char_before (Some x) s' (String.length pre))
      with (char_before b (String x s') (S (String.length pre))).
    change (drop (String.length pre) s')
      with (drop (S (String.length pre)) (String x s')).
    rewrite Hs, char_before_app.
    change (S (String.length pre)) with (String.length (String c pre)).
    assert (drop (String.length (String c pre)) (pre +:+ String c r) = r) as ->.
    { replace (String.length (String c pre))
        with (String.length (pre +:+ String c "")) by (rewrite length_app_s; simpl; lia).
      change (String c r) with (String c "" +:+ r).
      rewrite <- app_assoc_s. apply drop_app_length. }
    apply (names_from_mid c r), word_not_nl, Hc.
  - destruct s as [|x s'].
    + unfold names_from. cbn [scan]. rewrite E. reflexivity.
    + rewrite names_from_cons_none by exact E.
      unfold names_after_line. cbn [after_line].
      destruct (is_nl x) eqn:Hx.
      * apply is_nl_eq in Hx. subst x. reflexivity.
      * apply names_from_mid, Hx.
Qed.

(** ** Lines of a text *)

Lemma split_lines (s : string) :
  Str.split "010"%char s
  = first_line s :: match after_line s with
                    | Some s' => Str.split "010"%char s'
                    | None => []
                    end.
Proof.
  induction s as [|c s IH]; [reflexivity|].
  cbn [Str.split after_line]. unfold first_line. cbn [Str.take_while].
  change (Chars.eqb c "010"%char) with (is_nl c).
  destruct (is_nl c); [reflexivity|].
  rewrite IH. reflexivity.
Qed.

Lemma declared_names_lines (s : string) :
  declared_names s
  = match line_declares (first_line s) with
    | Some name => name :: declared_after_line s
    | None => declared_after_line s
    end.
Proof.
  unfold declared_names at 1. rewrite split_lines. cbn [omap list_omap].
  unfold declared_after_line, declared_names.
  destruct (line_declares (first_line s)); destruct (after_line s); reflexivity.
Qed.

Lemma no_keyword_alone_lines (s : string) :
  no_keyword_alone s
  = negb (keyword_alone (first_line s))
    && match after_line s with
       | Some s' => no_keyword_alone s'
       | None => true
       end.
Proof.
  unfold no_keyword_alone at 1. rewrite split_lines. cbn [forallb].
  destruct (after_line s); reflexivity.
Qed.

Lemma after_line_length (s s' : string) :
  after_line s = Some s' → String.length s' < String.length s.
Proof.
  induction s as [|c s IH]; [discriminate|]. cbn [after_line].
  destruct (is_nl c).
  - intros H. injection H as ->. simpl. lia.
  - intros H. apply IH in H. simpl. lia.
Qed.

Lemma drop_while_all_empty (p : ascii → bool) (s : string) :
  all_chars p s = true → Str.drop_while p s = "".
Proof.
  induction s as [|c s IH]; [reflexivity|]. cbn [all_chars Str.drop_while].
  intros [Hc Hs]%andb_true_iff. rewrite Hc. apply IH, Hs.
Qed.

Lemma drop_while_idem (p : ascii → bool) (s : string) :
  Str.drop_while p (Str.drop_while p s) = Str.drop_while p s.
Proof.
  induction s as [|c s IH]; [reflexivity|]. cbn [Str.drop_while].
  destruct (p c) eqn:Hp; [exact IH|]. cbn [Str.drop_while]. rewrite Hp. reflexivity.
Qed.

Lemma decl_at_drop_while (s : string) :
  decl_at (Str.drop_while Chars.is_space s) = decl_at s.
Proof. unfold decl_at. rewrite drop_while_idem. reflexivity. Qed.

Lemma line_declares_decl_at (line : string) :
  line_declares line = fst <$> decl_at line.
Proof.
  unfold line_declares, decl_at.
  destruct (Str.prefix "module" _ && head_is Chars.is_space _); [|reflexivity].
  destruct (Str.is_empty _); reflexivity.
Qed.

(** A blank line is passed over. *)
Lemma blank_line_drop_while (s : string) :
  all_chars Chars.is_space (first_line s) = true →
  Str.drop_while Chars.is_space s
  = match after_line s with
    | Some s' => Str.drop_while Chars.is_space s'
    | None => ""
    end.
Proof.
  induction s as [|c s IH]; [reflexivity|].
  unfold first_line. cbn [Str.take_while after_line Str.drop_while].
  destruct (is_nl c) eqn:Hn; cbn [negb].
  - intros _. rewrite (nl_is_space c Hn). reflexivity.
  - cbn [all_chars]. intros [Hc Hs]%andb_true_iff. rewrite Hc. apply IH, Hs.
Qed.

Lemma blank_line_decl_at (s : string) :
  all_chars Chars.is_space (first_line s) = true →
  line_declares (first_line s) = None
  ∧ decl_at s = match after_line s with
                | Some s' => decl_at s'
                | None => None
                end.
Proof.
  intros Hb. split.
  - unfold line_declares. rewrite (drop_while_all_empty _ _ Hb). reflexivity.
  - rewrite <- decl_at_drop_while, (blank_line_drop_while s Hb).
    destruct (after_line s); [apply decl_at_drop_while|reflexivity].
Qed.

(** White space, a literal without line break, and word characters at the
    start of a line stay within the line. *)
Lemma first_line_drop_while (x : string) :
  all_chars Chars.is_space (first_line x) = false →
  Str.drop_while Chars.is_space (first_line x)
    = first_line (Str.drop_while Chars.is_space x)
  ∧ after_line (Str.drop_while Chars.is_space x) = after_line x.
Proof.
  induction x as [|c x IH]; [discriminate|].
  unfold first_line in *. cbn [Str.take_while after_line Str.drop_while].
  destruct (is_nl c) eqn:Hn; cbn [negb]; [discriminate|].
  cbn [all_chars Str.drop_while].
  destruct (Chars.is_space c) eqn:Hc; cbn [andb].
  - exact IH.
  - intros _. cbn [Str.take_while after_line]. rewrite Hn. split; reflexivity.
Qed.

Lemma first_line_prefix (lit x : string) :
  Chars.mem "010"%char lit = false →
  Str.prefix lit (first_line x) = Str.prefix lit x.
Proof.
  revert x. induction lit as [|a lit IH]; intros x Hnl; [reflexivity|].
  cbn [Chars.mem] in Hnl. apply orb_false_iff in Hnl as [Ha Hnl].
  destruct x as [|c x]; [reflexivity|].
  unfold first_line in *. cbn [Str.take_while Str.prefix].
  destruct (is_nl c) eqn:Hn; cbn [negb Str.prefix].
  - apply is_nl_eq in Hn. subst c. rewrite chars_eqb_sym, Ha. reflexivity.
  - rewrite (IH x Hnl). reflexivity.
Qed.

Lemma first_line_drop (lit x : string) :
  Chars.mem "010"%char lit = false → Str.prefix lit x = true →
  drop (String.length lit) (first_line x) = first_line (drop (String.length lit) x)
  ∧ after_line (drop (String.length lit) x) = after_line x.
Proof.
  revert x. induction lit as [|a lit IH]; intros x Hnl Hp.
  - split; reflexivity.
  - cbn [Chars.mem] in Hnl. apply orb_false_iff in Hnl as [Ha Hnl].
    destruct x as [|c x]; [discriminate|].
    cbn [Str.prefix] in Hp. apply andb_true_iff in Hp as [Hac Hp].
    assert (is_nl c = false) as Hn.
    { unfold Chars.eqb in Hac. apply Ascii.eqb_eq in Hac. subst c.
      unfold is_nl. rewrite chars_eqb_sym. exact Ha. }
    unfold first_line in *. cbn [Str.take_while String.length drop after_line].
    rewrite Hn. cbn [negb drop]. apply IH; assumption.
Qed.

Lemma first_line_word (x : string) :
  Str.take_while Chars.is_word (first_line x) = Str.take_while Chars.is_word x
  ∧ after_line (Str.drop_while Chars.is_word x) = after_line x.
Proof.
  induction x as [|c x [IH1 IH2]]; [split; reflexivity|].
  unfold first_line in *. cbn [Str.take_while Str.drop_while after_line].
  destruct (Chars.is_word c) eqn:Hw.
  - rewrite (word_not_nl c Hw). cbn [negb Str.take_while]. rewrite Hw, IH1.
    split; [reflexivity|exact IH2].
  - cbn [after_line].
    destruct (is_nl c); cbn [negb Str.take_while]; [split; reflexivity|].
    rewrite Hw. split; reflexivity.
Qed.

Lemma first_line_head (x : string) :
  all_chars Chars.is_space (first_line x) = false →
  head_is Chars.is_space (first_line x) = head_is Chars.is_space x.
Proof.
  destruct x as [|c x]; [reflexivity|].
  unfold first_line. cbn [Str.take_while].
  destruct (is_nl c); cbn [negb]; [discriminate|reflexivity].
Qed.

(** A line with something on it, other than the keyword alone, declares
    what the pattern finds at its start, and the pattern stays on the line. *)
Lemma text_line_decl_at (s : string) :
  all_chars Chars.is_space (first_line s) = false →
  keyword_alone (first_line s) = false →
  line_declares (first_line s) = fst <$> decl_at s
  ∧ ∀ name r, decl_at s = Some (name, r) → after_line r = after_line s.
Proof.
  intros Hblank Halone.
  destruct (first_line_drop_while s Hblank) as [E1 A1].
  unfold line_declares, keyword_alone, decl_at in *.
  rewrite E1 in *.
  set (s1 := Str.drop_while Chars.is_space s) in *.
  rewrite first_line_prefix in * by reflexivity.
  destruct (Str.prefix "module" s1) eqn:Hpre; cbn [andb] in *;
    [|split; [reflexivity|discriminate]].
  destruct (first_line_drop "module" s1 eq_refl Hpre) as [E2 A2].
  change (String.length "module") with 6 in E2, A2.
  rewrite E2 in *.
  set (s2 := drop 6 s1) in *.
  rewrite (first_line_head s2 Halone).
  destruct (head_is Chars.is_space s2); [|split; [reflexivity|discriminate]].
  destruct (first_line_drop_while s2 Halone) as [E3 A3].
  rewrite E3.
  set (s3 := Str.drop_while Chars.is_space s2) in *.
  destruct (first_line_word s3) as [E4 A4]. rewrite E4.
  destruct (Str.is_empty (Str.take_while Chars.is_word s3));
    [split; [reflexivity|discriminate]|].
  split; [reflexivity|].
  intros name r H. injection H as _ <-. congruence.
Qed.

(** ** The module locator against the lines of the text *)

Lemma names_from_declared (n : nat) :
  ∀ (s : string) (b : option ascii),
    String.length s ≤ n →
    at_bol module_names_flags (MState b s []) = true →
    no_keyword_alone s = true →
    names_from b s = declared_names s.
Proof.
  induction n as [|n IH]; intros s b Hlen Hb Hok.
  - destruct s; [|simpl in Hlen; lia].
    rewrite names_from_bol by exact Hb. reflexivity.
  - rewrite no_keyword_alone_lines in Hok.
    apply andb_true_iff in Hok as [Halone Htail].
    apply negb_true_iff in Halone.
    assert (names_after_line s = declared_after_line s) as Tail.
    { unfold names_after_line, declared_after_line.
      destruct (after_line s) as [s'|] eqn:Ha; [|reflexivity].
      apply IH; [apply after_line_length in Ha; lia|reflexivity|exact Htail]. }
    rewrite names_from_bol by exact Hb. rewrite declared_names_lines.
    destruct (all_chars Chars.is_space (first_line s)) eqn:Hblank.
    + destruct (blank_line_decl_at s Hblank) as [-> ->].
      destruct (after_line s) as [s'|] eqn:Ha.
      * assert (names_from (Some "010"%char) s' = declared_names s') as E.
        { apply IH; [apply after_line_length in Ha; lia|reflexivity|exact Htail]. }
        rewrite names_from_bol in E by reflexivity.
        unfold declared_after_line. rewrite Ha, <- E.
        destruct (decl_at s') as [[name r]|]; [reflexivity|].
        rewrite Tail. unfold declared_after_line. rewrite Ha.
        rewrite <- E. reflexivity.
      * rewrite Tail. reflexivity.
    + destruct (text_line_decl_at s Hblank Halone) as [-> Hafter].
      destruct (decl_at s) as [[name r]|]; cbn [fmap option_fmap option_map fst].
      * f_equal. rewrite <- Tail. unfold names_after_line.
        rewrite (Hafter name r eq_refl). reflexivity.
      * exact Tail.
Qed.

Lemma length_omap_filter {A B} (f : A → option B) (l : list A) :
  length (omap f l) = length (filter (fun x => is_Some (f x)) l).
Proof.
  induction l as [|x l IH]; [reflexivity|].
  cbn [omap list_omap]. destruct (f x) as [y|] eqn:E.
  - rewrite filter_cons_True by (rewrite E; eauto). simpl. rewrite IH. reflexivity.
  - rewrite filter_cons_False by (rewrite E; apply is_Some_None). exact IH.
Qed.

(** C4: on a text in which no line holds the keyword [module] alone, the
    module locator returns exactly the names declared by the lines that
    begin (after optional white space) with [module], white space and an
    identifier: one name per such line, in the order of the lines, repeated
    names kept, and nothing when no line declares a module. *)
Theorem module_locator_names_by_line (verilog_text : string) :
  no_keyword_alone verilog_text = true →
  get_module_names verilog_text = declared_names verilog_text
  ∧ length (get_module_names verilog_text) = declaring_lines verilog_text.
Proof.
  intros Hok.
  assert (get_module_names verilog_text = declared_names verilog_text) as E.
  { apply (names_from_declared (String.length verilog_text));
      [reflexivity|reflexivity|exact Hok]. }
  split; [exact E|].
  rewrite E. apply length_omap_filter.
Qed.

Lemma module_locator_names_by_line_witness :
  no_keyword_alone "module a (x);
endmodule
  module b;
module a;
" = true
  ∧ get_module_names "module a (x);
endmodule
  module b;
module a;
" = ["a"; "b"; "a"].
Proof.
  split; [reflexivity|].
  apply (module_locator_names_by_line "module a (x);
endmodule
  module b;
module a;
"). reflexivity.
Defined.

(** Without that condition the names can differ from the declaring lines:
    after a line that holds the keyword alone, the next line's first word is
    taken as the name. *)
Lemma keyword_alone_line_shifts_name :
  get_module_names "module
module x" = ["module"]
  ∧ declared_names "module
module x" = ["x"]
  ∧ get_module_names "module
module x" ≠ declared_names "module
module x".
Proof.
  split; [vm_compute; reflexivity|].
  split; [vm_compute; reflexivity|].
  vm_compute. discriminate.
Qed.

(** ** Groups kept by the rest of a pattern *)








(** * Further properties of the renderer *)

Lemma output_group_names_diagram (nl : netlist) :
  error nl = None →
  output_group_names (create_gate_level_diagram nl) = default [] (outputs nl).
Proof.
  intros He. unfold output_group_names. rewrite (diagram_spec nl He).
  rewrite !cluster_nodes_app, cluster_nodes_gate_stmts, cluster_nodes_fmap_node.
  unfold cluster_nodes at 1 2. simpl. rewrite !app_nil_r.
  rewrite flat_map_stmt_nodes, nodes_fmap_node by reflexivity.
  rewrite <- list_fmap_compose. apply list_fmap_id.
Qed.

(** X1: without the key "error", the declared inputs are drawn in the input
    cluster and the declared outputs in the output cluster, one node per
    entry, in the declared order (a missing key counts as an empty list). *)
Theorem declared_ports_drawn_in_order (nl : netlist) :
  error nl = None →
  input_group_names (create_gate_level_diagram nl) = default [] (inputs nl)
  ∧ output_group_names (create_gate_level_diagram nl) = default [] (outputs nl).
Proof.
  intros He. split.
  - apply input_group_names_diagram, He.
  - apply output_group_names_diagram, He.
Qed.

Lemma declared_ports_drawn_in_order_witness :
  input_group_names (create_gate_level_diagram shared_netlist) = ["a"]
  ∧ output_group_names (create_gate_level_diagram shared_netlist) = ["y"].
Proof. apply (declared_ports_drawn_in_order shared_netlist). reflexivity. Defined.

Lemma gate_node_names (n : nat) (gs : list gate) :
  node_name <$> nodes (all_gate_stmts n gs)
  = imap (fun i g => gate_id (n + i) g) gs.
Proof.
  revert n. induction gs as [|g gs IH]; intros n; [reflexivity|].
  cbn [all_gate_stmts]. rewrite nodes_app, fmap_app, nodes_gate_stmts, IH.
  cbn [fmap list_fmap node_name app imap]. rewrite Nat.add_0_r. f_equal.
  apply imap_ext. intros i x _. cbn. f_equal. lia.
Qed.

Lemma gate_node_labels (n : nat) (gs : list gate) :
  node_label <$> nodes (all_gate_stmts n gs)
  = (fun g => Some (gate_label g)) <$> gs.
Proof.
  revert n. induction gs as [|g gs IH]; intros n; [reflexivity|].
  cbn [all_gate_stmts]. rewrite nodes_app, fmap_app, nodes_gate_stmts, IH.
  reflexivity.
Qed.

(** X2: every gate of the list gets a node of its own: the gate nodes are as
    many as the gates and their identifiers are pairwise different, also
    for gates of equal type; and when no type tag holds a letter whose
    upper-case form lies outside the code points modelled, the labels are the
    upper-cased type tags in list order, "GATE" for a gate without a type. *)
Theorem one_node_per_gate (nl : netlist) :
  error nl = None →
  let d := create_gate_level_diagram nl in
  length (gate_nodes d) = length (default [] (gates nl))
  ∧ NoDup (node_name <$> gate_nodes d)
  ∧ (Forall (fun g => Str.upper_in_range (default "gate" (g_type g)) = true)
            (default [] (gates nl)) →
     node_label <$> gate_nodes d
     = (fun g => Some (Str.upper (default "gate" (g_type g))))
         <$> default [] (gates nl)).
Proof.
  intros He d. subst d. rewrite gate_nodes_diagram by exact He.
  split; [|split].
  - rewrite <- (length_fmap node_name), gate_node_names, length_imap. reflexivity.
  - rewrite gate_node_names. apply NoDup_alt. intros i j x Hi Hj.
    rewrite list_lookup_imap in Hi, Hj.
    destruct (default [] (gates nl) !! i) as [gi|]; [|discriminate].
    destruct (default [] (gates nl) !! j) as [gj|]; [|discriminate].
    cbn in Hi, Hj. injection Hi as Hi. injection Hj as Hj.
    rewrite <- Hj in Hi. apply gate_id_inj in Hi. exact Hi.
  - intros _. apply gate_node_labels.
Qed.

Lemma one_node_per_gate_witness :
  let d := create_gate_level_diagram sharp_s_netlist in
  length (gate_nodes d) = 2
  ∧ NoDup (node_name <$> gate_nodes d)
  ∧ node_label <$> gate_nodes d = [Some "STRASSE"; Some "GATE"].
Proof.
  destruct (one_node_per_gate sharp_s_netlist eq_refl) as [Hlen [Hnd Hlab]].
  split; [exact Hlen|split; [exact Hnd|]].
  apply Hlab. repeat constructor.
Defined.

Lemma edges_all_gate_stmts (n : nat) (gs : list gate) (t h : string) :
  (t, h) ∈ edges (all_gate_stmts n gs)
  ↔ ∃ i g, gs !! i = Some g
      ∧ ((t = gate_id (n + i) g ∧ g_output g = Some h ∧ h ≠ "")
         ∨ (h = gate_id (n + i) g ∧ t ∈ default [] (g_inputs g))).
Proof.
  revert n. induction gs as [|g gs IH]; intros n.
  - split; [intros H; apply elem_of_nil in H; contradiction|].
    intros [i [g [Hi _]]]. discriminate.
  - cbn [all_gate_stmts]. rewrite edges_app, elem_of_app, IH, edges_gate_stmts.
    rewrite elem_of_app. split.
    + intros [[Ho|Hin]|[i [g' [Hi H]]]].
      * exists 0, g. split; [reflexivity|]. left. rewrite Nat.add_0_r.
        unfold truthy in Ho. destruct (g_output g) as [o|];
          [|apply elem_of_nil in Ho; contradiction].
        destruct o as [|c o]; [apply elem_of_nil in Ho; contradiction|].
        apply list_elem_of_singleton in Ho. injection Ho as -> ->.
        split; [reflexivity|split; [reflexivity|discriminate]].
      * exists 0, g. split; [reflexivity|]. right. rewrite Nat.add_0_r.
        apply list_elem_of_fmap in Hin as [w [E Hw]]. injection E as -> ->.
        split; [reflexivity|exact Hw].
      * exists (S i), g'. split; [exact Hi|].
        replace (n + S i) with (S n + i) by lia. exact H.
    + intros [[|i] [g' [Hi H]]].
      * injection Hi as <-. rewrite Nat.add_0_r in H. left.
        destruct H as [[-> [Ho Hne]]|[-> Hw]].
        -- left. rewrite Ho. unfold truthy.
           destruct h; [contradiction|]. apply list_elem_of_here.
        -- right. apply (list_elem_of_fmap_2 (fun w => (w, gate_id n g))). exact Hw.
      * right. exists i, g'. split; [exact Hi|].
        replace (S n + i) with (n + S i) by lia. exact H.
Qed.

Lemma length_edges_all_gate_stmts (n : nat) (gs : list gate) :
  length (edges (all_gate_stmts n gs)) = sum_list (gate_edge_count <$> gs).
Proof.
  revert n. induction gs as [|g gs IH]; intros n; [reflexivity|].
  cbn [all_gate_stmts]. rewrite edges_app, length_app, IH, edges_gate_stmts.
  rewrite length_app, length_fmap. cbn [fmap list_fmap sum_list sum_list_with].
  unfold gate_edge_count. destruct (truthy (g_output g)); reflexivity.
Qed.

(** X3: every edge of the diagram joins a gate and a wire: it runs from a
    gate to that gate's non-empty output name, or from a name in a gate's
    input list to that gate; there is no other edge, and each gate
    contributes one edge per listed input plus one for a non-empty output. *)
Theorem edges_join_gates_and_wires (nl : netlist) :
  error nl = None →
  let d := create_gate_level_diagram nl in
  (∀ t h, (t, h) ∈ edges d
     ↔ ∃ i g, default [] (gates nl) !! i = Some g
         ∧ ((t = gate_id i g ∧ g_output g = Some h ∧ h ≠ "")
            ∨ (h = gate_id i g ∧ t ∈ default [] (g_inputs g))))
  ∧ length (edges d) = sum_list (gate_edge_count <$> default [] (gates nl)).
Proof.
  intros He d. subst d. rewrite edges_diagram by exact He. split.
  - intros t h. apply (edges_all_gate_stmts 0).
  - apply length_edges_all_gate_stmts.
Qed.

Lemma edges_join_gates_and_wires_witness :
  length (edges (create_gate_level_diagram shared_netlist)) = 6.
Proof.
  apply (proj2 (edges_join_gates_and_wires shared_netlist eq_refl)).
Defined.

Lemma is_gate_output_spec (gs : list gate) (w : string) :
  is_gate_output gs w = true ↔ ∃ g, g ∈ gs ∧ g_output g = Some w.
Proof.
  unfold is_gate_output. rewrite existsb_exists. split.
  - intros [g [Hin H]]. exists g. split; [apply list_elem_of_In, Hin|].
    apply bool_decide_eq_true in H. exact H.
  - intros [g [Hin H]]. exists g. split; [apply list_elem_of_In, Hin|].
    apply bool_decide_eq_true. exact H.
Qed.

Lemma junction_names_spec (nl : netlist) (w : string) :
  error nl = None →
  w ∈ junction_names (create_gate_level_diagram nl)
  ↔ (∃ g, g ∈ default [] (gates nl) ∧ w ∈ default [] (g_inputs g))
    ∧ (w ∉ default [] (inputs nl))
    ∧ (w ∉ default [] (outputs nl))
    ∧ ∀ g, g ∈ default [] (gates nl) → g_output g ≠ Some w.
Proof.
  intros He. rewrite junction_names_diagram by exact He.
  rewrite list_elem_of_filter, elem_of_elements.
  unfold is_junction, in_list.
  rewrite !andb_true_iff, !negb_true_iff, !bool_decide_eq_false.
  rewrite <- not_true_iff_false, is_gate_output_spec.
  rewrite !elem_of_union, !elem_of_list_to_set.
  split.
  - intros [[[Hi Ho] Hg] Hin]. split; [|split; [exact Hi|split; [exact Ho|]]].
    + destruct Hin as [Hin|[Hin|[Hin|Hin]]];
        [|contradiction|contradiction|apply elem_of_empty in Hin; contradiction].
      apply list_elem_of_In, in_flat_map in Hin as [g [Hgin Hw]].
      apply list_elem_of_In in Hgin, Hw.
      exists g. split; [exact Hgin|].
      unfold gate_wires in Hw. apply elem_of_app in Hw as [Hw|Hw]; [|exact Hw].
      exfalso. apply Hg. exists g. split; [exact Hgin|].
      unfold truthy in Hw. destruct (g_output g) as [o|];
        [|apply elem_of_nil in Hw; contradiction].
      destruct (Str.is_empty o); [apply elem_of_nil in Hw; contradiction|].
      apply list_elem_of_singleton in Hw. cbn in Hw. congruence.
    + intros g Hgin E. apply Hg. exists g. split; assumption.
  - intros [[g [Hgin Hw]] [Hi [Ho Hg]]]. split; [split; [split|]|].
    + exact Hi.
    + exact Ho.
    + intros [g' [Hg' E]]. apply (Hg g' Hg' E).
    + left. apply list_elem_of_In, in_flat_map. exists g.
      split; [apply list_elem_of_In, Hgin|].
      apply list_elem_of_In. unfold gate_wires. apply elem_of_app. right. exact Hw.
Qed.

(** X4: the junction points of the diagram are exactly the dangling wires:
    a name is drawn as a junction if and only if some gate lists it as an
    input and it is neither a declared input, nor a declared output, nor the
    output of any gate. *)
Theorem junctions_are_undriven_wires (nl : netlist) (w : string) :
  error nl = None →
  w ∈ junction_names (create_gate_level_diagram nl)
  ↔ (∃ g, g ∈ default [] (gates nl) ∧ w ∈ default [] (g_inputs g))
    ∧ (w ∉ default [] (inputs nl))
    ∧ (w ∉ default [] (outputs nl))
    ∧ ∀ g, g ∈ default [] (gates nl) → g_output g ≠ Some w.
Proof. apply junction_names_spec. Qed.

Lemma junctions_are_undriven_wires_witness :
  "w" ∈ junction_names (create_gate_level_diagram shared_netlist)
  ↔ (∃ g, g ∈ default [] (gates shared_netlist) ∧ "w" ∈ default [] (g_inputs g))
    ∧ ("w" ∉ default [] (inputs shared_netlist))
    ∧ ("w" ∉ default [] (outputs shared_netlist))
    ∧ ∀ g, g ∈ default [] (gates shared_netlist) → g_output g ≠ Some "w".
Proof. apply (junctions_are_undriven_wires shared_netlist "w"). reflexivity. Defined.

(** X5: a netlist without gates (the key "gates" missing or its list empty)
    is drawn as its declared ports alone: no gate node, no junction point and
    no edge. *)
Theorem no_gates_only_ports (nl : netlist) :
  error nl = None →
  default [] (gates nl) = [] →
  let d := create_gate_level_diagram nl in
  nodes d = (port_node color_input <$> default [] (inputs nl))
            ++ (port_node color_output <$> default [] (outputs nl))
  ∧ gate_nodes d = []
  ∧ junction_names d = []
  ∧ edges d = [].
Proof.
  intros He Hg d. subst d. split; [|split; [|split]].
  - rewrite (diagram_spec nl He), Hg.
    assert (filter (fun node => is_junction nl node = true)
              (elements (list_to_set (flat_map gate_wires [])
                         ∪ (list_to_set (default [] (outputs nl))
                            ∪ (list_to_set (default [] (inputs nl)) ∪ ∅))
                         : gset string)) = []) as ->.
    { apply elem_of_nil_inv. intros w Hw.
      apply list_elem_of_filter in Hw as [Hj Hin].
      apply elem_of_elements in Hin. unfold is_junction, in_list in Hj.
      rewrite !andb_true_iff, !negb_true_iff, !bool_decide_eq_false in Hj.
      destruct Hj as [[Hi Ho] _]. set_solver. }
    change [cluster "cluster_inputs" "Inputs" color_input (default [] (inputs nl));
            cluster "cluster_outputs" "Outputs" color_output (default [] (outputs nl))]
      with ([cluster "cluster_inputs" "Inputs" color_input (default [] (inputs nl))]
            ++ [cluster "cluster_outputs" "Outputs" color_output (default [] (outputs nl))]).
    rewrite !nodes_app, !nodes_cluster. cbn. rewrite !app_nil_r. reflexivity.
  - rewrite gate_nodes_diagram by exact He. rewrite Hg. reflexivity.
  - apply elem_of_nil_inv. intros w Hw.
    apply junction_names_spec in Hw as [[g [Hin _]] _]; [|exact He].
    rewrite Hg in Hin. apply elem_of_nil in Hin. exact Hin.
  - rewrite edges_diagram by exact He. rewrite Hg. reflexivity.
Qed.

Lemma no_gates_only_ports_witness :
  edges (create_gate_level_diagram (Netlist None (Some ["a"; "b"]) None None)) = [].
Proof.
  apply (no_gates_only_ports (Netlist None (Some ["a"; "b"]) None None));
    reflexivity.
Defined.

(** * Further properties of the extractor and the locator *)

(** ** Where a match can end *)

Lemma step_char_reaches (ok : ascii → bool) (st : mstate)
    (k : mstate → option mstate) (e : mstate) :
  step_char ok st k = Some e →
  ∃ c st', rest st = String c (rest st') ∧ ok c = true ∧ k st' = Some e.
Proof.
  unfold step_char. destruct (rest st) as [|x s'] eqn:Hr; [discriminate|].
  destruct (ok x) eqn:Hx; [|discriminate]. intros H.
  exists x, (advance x s' st). split; [reflexivity|split; [exact Hx|exact H]].
Qed.

Lemma star_loop_suffix
    (body : mstate → (mstate → option mstate) → option mstate)
    (greedy : bool) (k : mstate → option mstate) (n : nat) :
  (∀ st k e, body st k = Some e →
     ∃ st', k st' = Some e ∧ ∃ w, rest st = w +:+ rest st') →
  ∀ st e, star_loop body greedy k n st = Some e →
    ∃ st', k st' = Some e ∧ ∃ w, rest st = w +:+ rest st'.
Proof.
  intros Hbody. induction n as [|n IH]; intros st e H.
  - exists st. split; [exact H|exists ""; reflexivity].
  - cbn [star_loop] in H.
    assert (∀ x, body st (fun st' =>
                   if (String.length (rest st') <? String.length (rest st))%nat
                   then star_loop body greedy k n st' else None) = Some x →
            ∃ st', k st' = Some x ∧ ∃ w, rest st = w +:+ rest st') as Hagain.
    { intros x Hx. apply Hbody in Hx as [st1 [Hx [w1 E1]]].
      destruct (_ <? _)%nat; [|discriminate].
      apply IH in Hx as [st2 [Hx [w2 E2]]]. exists st2. split; [exact Hx|].
      exists (w1 +:+ w2). rewrite E1, E2, app_assoc_s. reflexivity. }
    destruct greedy; unfold orelse in H.
    + destruct (body st _) as [x|] eqn:Hb.
      * injection H as ->. apply Hagain. reflexivity.
      * exists st. split; [exact H|exists ""; reflexivity].
    + destruct (k st) as [x|] eqn:Hk.
      * injection H as ->. exists st. split; [exact Hk|exists ""; reflexivity].
      * apply Hagain. exact H.
Qed.

(** Whatever the pattern, the continuation is entered at a position further
    on in the same text. *)
Lemma run_suffix (fl : flags) (r : regex) :
  ∀ st k e, run fl r st k = Some e →
    ∃ st', k st' = Some e ∧ ∃ w, rest st = w +:+ rest st'.
Proof.
  induction r as [|c|p| |r1 IH1 r2 IH2|r1 IH1 r2 IH2|g r1 IH1|j r1 IH1| | |r1 IH1];
    intros st k e H; cbn [run] in H.
  - exists st. split; [exact H|exists ""; reflexivity].
  - apply step_char_reaches in H as [x [st' [E [_ H]]]].
    exists st'. split; [exact H|exists (String x ""); exact E].
  - apply step_char_reaches in H as [x [st' [E [_ H]]]].
    exists st'. split; [exact H|exists (String x ""); exact E].
  - apply step_char_reaches in H as [x [st' [E [_ H]]]].
    exists st'. split; [exact H|exists (String x ""); exact E].
  - apply IH1 in H as [st1 [H [w1 E1]]].
    apply IH2 in H as [st2 [H [w2 E2]]].
    exists st2. split; [exact H|].
    exists (w1 +:+ w2). rewrite E1, E2, app_assoc_s. reflexivity.
  - unfold orelse in H. destruct (run fl r1 st k) as [x|] eqn:H1.
    + injection H as ->. apply IH1, H1.
    + apply IH2, H.
  - apply (star_loop_suffix _ _ _ _ IH1) in H. exact H.
  - apply IH1 in H as [st1 [H [w1 E1]]].
    eexists. split; [exact H|]. exists w1. exact E1.
  - destruct (at_bol fl st); [|discriminate].
    exists st. split; [exact H|exists ""; reflexivity].
  - destruct (at_eol fl st); [|discriminate].
    exists st. split; [exact H|exists ""; reflexivity].
  - destruct (run fl r1 st Some); [|discriminate].
    exists st. split; [exact H|exists ""; reflexivity].
Qed.

Lemma take_app_length (w r : string) :
  Str.take (String.length (w +:+ r) - String.length r) (w +:+ r) = w.
Proof.
  rewrite length_app_s.
  replace (String.length w + String.length r - String.length r)
    with (String.length w) by lia.
  induction w as [|c w IH]; [destruct r; reflexivity|].
  rewrite app_cons. cbn [String.length Str.take]. rewrite IH. reflexivity.
Qed.

(** The text of a match and what is left after it make up the subject. *)
Lemma match_at_whole (fl : flags) (r : regex) (b : option ascii) (s : string)
    (m : rmatch) :
  match_at fl r b s = Some m → s = whole m +:+ rest (final m).
Proof.
  unfold match_at. destruct (run fl r (MState b s []) Some) as [e|] eqn:H;
    [|discriminate].
  intros E. injection E as <-. cbn [whole final].
  apply run_suffix in H as [st' [Hs [w Hw]]]. injection Hs as ->.
  cbn [rest] in Hw. unfold consumed. cbn [rest].
  subst s. rewrite take_app_length. reflexivity.
Qed.

(** [search] reports a match at some position of the text; the character
    before that position is the last one of the text passed over. *)
Lemma search_from_position (fl : flags) (r : regex) (s : string) (m : rmatch) :
  ∀ b, search_from fl r b s = Some m →
    ∃ pre s', s = pre +:+ s' ∧ match_at fl r (lit_before pre b) s' = Some m.
Proof.
  induction s as [|c s IH]; intros b H; cbn [search_from] in H.
  - destruct (match_at fl r b "") as [m'|] eqn:E; [|discriminate].
    injection H as ->. exists "", "". split; [reflexivity|exact E].
  - destruct (match_at fl r b (String c s)) as [m'|] eqn:E.
    + injection H as ->. exists "", (String c s). split; [reflexivity|exact E].
    + apply IH in H as [pre [s' [Hs Hm]]].
      exists (String c pre), s'. split; [rewrite Hs; reflexivity|exact Hm].
Qed.

Lemma lit_before_snoc (pre : string) (b : option ascii) (c : ascii) :
  lit_before pre b = Some c → pre = "" ∨ ∃ p, pre = p +:+ String c "".
Proof.
  revert b. induction pre as [|x pre IH]; intros b H; [left; reflexivity|].
  right. cbn [lit_before] in H. destruct (IH _ H) as [->|[p ->]].
  - cbn in H. injection H as ->. exists "". reflexivity.
  - exists (String x p). reflexivity.
Qed.

Lemma star_class_reaches
    (body : mstate → (mstate → option mstate) → option mstate)
    (p : ascii → bool) (greedy : bool) (k : mstate → option mstate) (n : nat) :
  (∀ st k, body st k = step_char p st k) →
  ∀ st e, star_loop body greedy k n st = Some e →
    ∃ w st', rest st = w +:+ rest st' ∧ all_chars p w = true ∧ k st' = Some e.
Proof.
  intros Hbody. induction n as [|n IH]; intros st e H.
  - exists "", st. split; [reflexivity|split; [reflexivity|exact H]].
  - cbn [star_loop] in H. rewrite Hbody in H.
    assert (∀ x, step_char p st (fun st' =>
                   if (String.length (rest st') <? String.length (rest st))%nat
                   then star_loop body greedy k n st' else None) = Some x →
            ∃ w st', rest st = w +:+ rest st' ∧ all_chars p w = true
                     ∧ k st' = Some x) as Hagain.
    { intros x Hx. apply step_char_reaches in Hx as [c [st1 [E1 [Hc Hx]]]].
      destruct (_ <? _)%nat; [|discriminate].
      apply IH in Hx as [w [st2 [E2 [Hw Hx]]]].
      exists (String c w), st2. split; [rewrite E1, E2; reflexivity|].
      split; [cbn [all_chars]; rewrite Hc, Hw; reflexivity|exact Hx]. }
    destruct greedy; unfold orelse in H.
    + destruct (step_char p st _) as [x|] eqn:Hb.
      * injection H as ->. apply Hagain. reflexivity.
      * exists "", st. split; [reflexivity|split; [reflexivity|exact H]].
    + destruct (k st) as [x|] eqn:Hk.
      * injection H as ->. exists "", st.
        split; [reflexivity|split; [reflexivity|exact Hk]].
      * apply Hagain. exact H.
Qed.

(** A lazy repetition stops at the first position where the continuation
    can go on. *)
Lemma star_lazy_first
    (body : mstate → (mstate → option mstate) → option mstate)
    (p : ascii → bool) (good : string → bool)
    (k : mstate → option mstate) (n : nat) :
  (∀ st k, body st k = step_char p st k) →
  (∀ st, good (rest st) = true → k st ≠ None) →
  ∀ st e, star_loop body false k n st = Some e →
    ∃ w st', rest st = w +:+ rest st' ∧ k st' = Some e
      ∧ ∀ a b, w = a +:+ b → b ≠ "" → good (b +:+ rest st') = false.
Proof.
  intros Hbody Hgood. induction n as [|n IH]; intros st e H.
  - exists "", st. split; [reflexivity|split; [exact H|]].
    intros a b E Hb. destruct a; destruct b; try discriminate. contradiction.
  - cbn [star_loop] in H. rewrite Hbody in H. unfold orelse in H.
    destruct (k st) as [x|] eqn:Hk.
    + injection H as ->. exists "", st. split; [reflexivity|split; [exact Hk|]].
      intros a b E Hb. destruct a; destruct b; try discriminate. contradiction.
    + apply step_char_reaches in H as [c [st1 [E1 [Hc H]]]].
      destruct (_ <? _)%nat; [|discriminate].
      apply IH in H as [w [st2 [E2 [H Hmin]]]].
      exists (String c w), st2. split; [rewrite E1, E2; reflexivity|].
      split; [exact H|]. intros a b E Hb.
      destruct a as [|x a].
      * rewrite app_empty_l in E. subst b.
        destruct (good (String c w +:+ rest st2)) eqn:Hg; [|reflexivity].
        exfalso. apply (Hgood st); [|exact Hk].
        rewrite E1, E2. exact Hg.
      * rewrite app_cons in E. injection E as _ E. apply (Hmin a b E Hb).
Qed.

Lemma run_lit_reaches (fl : flags) (lit : string) (st : mstate)
    (k : mstate → option mstate) (e : mstate) :
  ignorecase fl = false → run fl (Lit lit) st k = Some e →
  ∃ st', rest st = lit +:+ rest st' ∧ k st' = Some e.
Proof.
  intros Hfl H. destruct st as [b s cs].
  destruct (Str.prefix lit s) eqn:Hp.
  - rewrite run_lit_prefix in H by assumption.
    eexists. split; [|exact H]. cbn [rest]. apply prefix_split, Hp.
  - rewrite run_lit_no_prefix in H by assumption. discriminate.
Qed.

Lemma prefix_app_long (lit x y : string) :
  String.length lit ≤ String.length x →
  Str.prefix lit (x +:+ y) = Str.prefix lit x.
Proof.
  revert x. induction lit as [|a lit IH]; intros x Hl; [reflexivity|].
  destruct x as [|c x]; [simpl in Hl; lia|].
  rewrite app_cons. cbn [Str.prefix]. rewrite IH; [reflexivity|simpl in Hl; lia].
Qed.

(** The shape of a match of the extractor's pattern. *)
Lemma module_code_match_shape (module_name : string) (b : option ascii)
    (s : string) (m : rmatch) :
  match_at module_code_flags (module_code_regex module_name) b s = Some m →
  at_bol module_code_flags (MState b s []) = true
  ∧ ∃ ws ws' mid,
      whole m = ws +:+ "module" +:+ ws' +:+ module_name +:+ mid +:+ "endmodule"
      ∧ all_chars Chars.is_space ws = true
      ∧ all_chars Chars.is_space ws' = true
      ∧ ws' ≠ ""
      ∧ ∀ a b', mid = a +:+ b' → b' ≠ "" →
          Str.prefix "endmodule" (b' +:+ "endmodule") = false.
Proof.
  intros Hm. pose proof (match_at_whole _ _ _ _ _ Hm) as Hs.
  unfold match_at in Hm.
  destruct (run _ _ _ _) as [e|] eqn:H; [|discriminate].
  injection Hm as <-. cbn [whole final] in *.
  unfold module_code_regex, Plus in H. cbn [run] in H.
  destruct (at_bol module_code_flags (MState b s [])); [|discriminate].
  split; [reflexivity|].
  apply (star_class_reaches _ Chars.is_space) in H as [ws [st1 [E1 [Hws H]]]];
    [|reflexivity].
  apply run_lit_reaches in H as [st2 [E2 H]]; [|reflexivity].
  apply step_char_reaches in H as [c [st3 [E3 [Hc H]]]].
  apply (star_class_reaches _ Chars.is_space) in H as [ws2 [st4 [E4 [Hws2 H]]]];
    [|reflexivity].
  apply run_lit_reaches in H as [st5 [E5 H]]; [|reflexivity].
  apply (star_lazy_first _ any_char (Str.prefix "endmodule")) in H
    as [mid [st6 [E6 [H Hmin]]]]; [|reflexivity|].
  2:{ intros [b0 s0 cs0] Hg. cbn [rest] in Hg.
      rewrite run_lit_prefix by (reflexivity || exact Hg). discriminate. }
  apply run_lit_reaches in H as [st7 [E7 H]]; [|reflexivity].
  injection H as ->. cbn [rest] in E1.
  assert (s = (ws +:+ "module" +:+ String c ws2 +:+ module_name +:+ mid
               +:+ "endmodule") +:+ rest e) as Hs'.
  { rewrite E1, E2, E3, E4, E5, E6, E7. rewrite !app_assoc_s. reflexivity. }
  exists ws, (String c ws2), mid. split; [|split; [exact Hws|split; [|split]]].
  - rewrite Hs' in Hs at 1. apply (f_equal String.length) in Hs as Hlen.
    rewrite !length_app_s in Hlen.
    pose proof (take_app_length (whole {| whole := consumed (MState b s []) e;
                                          final := e |}) (rest e)) as T.
    cbn [whole] in T. rewrite <- Hs in T.
    pose proof (take_app_length (ws +:+ "module" +:+ String c ws2 +:+ module_name
                                 +:+ mid +:+ "endmodule") (rest e)) as T'.
    rewrite <- Hs' in T'. congruence.
  - cbn [all_chars]. rewrite Hc, Hws2. reflexivity.
  - discriminate.
  - intros a b' Ea Hb'. specialize (Hmin a b' Ea Hb').
    rewrite E7, <- app_assoc_s in Hmin.
    rewrite prefix_app_long in Hmin; [exact Hmin|].
    rewrite length_app_s. simpl. lia.
Qed.

(** ** The module extractor *)

Lemma get_module_code_match (module_name text code : string) :
  get_module_code module_name text = Some code →
  ∃ pre s' m,
    text = pre +:+ s'
    ∧ match_at module_code_flags (module_code_regex module_name)
               (lit_before pre None) s' = Some m
    ∧ whole m = code.
Proof.
  unfold get_module_code, search.
  destruct (search_from _ _ _ _) as [m|] eqn:H; [|discriminate].
  intros E. injection E as <-.
  apply search_from_position in H as [pre [s' [Hs Hm]]].
  exists pre, s', m. split; [exact Hs|split; [exact Hm|reflexivity]].
Qed.

Lemma module_code_span (module_name text code : string) :
  get_module_code module_name text = Some code →
  ∃ pre post,
    text = pre +:+ code +:+ post
    ∧ (pre = "" ∨ ∃ p, pre = p +:+ "
").
Proof.
  intros H. apply get_module_code_match in H as [pre [s' [m [Hs [Hm <-]]]]].
  exists pre, (rest (final m)). split.
  - rewrite Hs. f_equal. apply (match_at_whole _ _ _ _ _ Hm).
  - apply module_code_match_shape in Hm as [Hb _].
    unfold at_bol in Hb. cbn [before] in Hb.
    destruct (lit_before pre None) as [c|] eqn:Hl.
    + apply andb_true_iff in Hb as [_ Hc]. apply (is_nl_eq c) in Hc. subst c.
      apply lit_before_snoc in Hl. exact Hl.
    + destruct pre as [|x pre]; [left; reflexivity|].
      exfalso. clear -Hl. cbn [lit_before] in Hl.
      revert x Hl. induction pre as [|y pre IH]; intros x Hl; [discriminate|].
      apply (IH y Hl).
Qed.

(** X6: the code returned by the extractor is a contiguous part of the
    file, and it begins at the start of a line: the text before it is empty
    or ends with a line break. *)
Theorem module_code_is_span_at_line_start (module_name text code : string) :
  get_module_code module_name text = Some code →
  ∃ pre post,
    text = pre +:+ code +:+ post
    ∧ (pre = "" ∨ ∃ p, pre = p +:+ "
").
Proof. apply module_code_span. Qed.

Lemma module_code_is_span_at_line_start_witness :
  ∃ pre post,
    "// top
module t(a);
endmodule
// end" = pre +:+ "module t(a);
endmodule" +:+ post
    ∧ (pre = "" ∨ ∃ p, pre = p +:+ "
").
Proof.
  apply (module_code_is_span_at_line_start "t" "// top
module t(a);
endmodule
// end"). vm_compute. reflexivity.
Defined.

Lemma module_code_shape (module_name text code : string) :
  get_module_code module_name text = Some code →
  ∃ ws ws' mid,
    code = ws +:+ "module" +:+ ws' +:+ module_name +:+ mid +:+ "endmodule"
    ∧ all_chars Chars.is_space ws = true
    ∧ all_chars Chars.is_space ws' = true
    ∧ ws' ≠ ""
    ∧ ∀ a b, mid = a +:+ b → b ≠ "" →
        Str.prefix "endmodule" (b +:+ "endmodule") = false.
Proof.
  intros H. apply get_module_code_match in H as [pre [s' [m [_ [Hm <-]]]]].
  apply module_code_match_shape in Hm as [_ H]. exact H.
Qed.

(** X7: the returned code consists of optional white space, the keyword
    [module], white space, the requested name, and then the text up to and
    including the first [endmodule] after the name: no [endmodule] begins
    inside the text between the name and the closing keyword. *)
Theorem module_code_ends_at_first_endmodule (module_name text code : string) :
  get_module_code module_name text = Some code →
  ∃ ws ws' mid,
    code = ws +:+ "module" +:+ ws' +:+ module_name +:+ mid +:+ "endmodule"
    ∧ all_chars Chars.is_space ws = true
    ∧ all_chars Chars.is_space ws' = true
    ∧ ws' ≠ ""
    ∧ ∀ a b, mid = a +:+ b → b ≠ "" →
        Str.prefix "endmodule" (b +:+ "endmodule") = false.
Proof. apply module_code_shape. Qed.

Lemma module_code_ends_at_first_endmodule_witness :
  ∃ ws ws' mid,
    "module a; endmodule"
      = ws +:+ "module" +:+ ws' +:+ "a" +:+ mid +:+ "endmodule"
    ∧ all_chars Chars.is_space ws = true
    ∧ all_chars Chars.is_space ws' = true
    ∧ ws' ≠ ""
    ∧ ∀ a b, mid = a +:+ b → b ≠ "" →
        Str.prefix "endmodule" (b +:+ "endmodule") = false.
Proof.
  apply (module_code_ends_at_first_endmodule "a"
           "module a; endmodule module b; endmodule").
  vm_compute. reflexivity.
Defined.

Lemma prefix_app_self (sub b : string) : Str.prefix sub (sub +:+ b) = true.
Proof.
  induction sub as [|c sub IH]; [reflexivity|].
  rewrite app_cons. cbn [Str.prefix]. unfold Chars.eqb.
  rewrite Ascii.eqb_refl, IH. reflexivity.
Qed.

Lemma contains_app_r (sub a b : string) :
  Str.contains sub b = true → Str.contains sub (a +:+ b) = true.
Proof.
  intros H. induction a as [|c a IH]; [exact H|].
  rewrite app_cons. cbn [Str.contains]. rewrite IH. apply orb_true_r.
Qed.

Lemma contains_intro (sub a b : string) :
  Str.contains sub (a +:+ sub +:+ b) = true.
Proof.
  apply contains_app_r. destruct (sub +:+ b) eqn:E.
  - cbn [Str.contains]. rewrite <- E, prefix_app_self. reflexivity.
  - cbn [Str.contains]. rewrite <- E, prefix_app_self. reflexivity.
Qed.

(** X8: the extractor answers "not found" whenever the keyword [module],
    the requested name or the keyword [endmodule] does not occur in the
    file. *)
Theorem module_code_not_found (module_name text : string) :
  Str.contains "module" text = false
  ∨ Str.contains module_name text = false
  ∨ Str.contains "endmodule" text = false →
  get_module_code module_name text = None.
Proof.
  intros Hno. destruct (get_module_code module_name text) as [code|] eqn:H;
    [|reflexivity].
  exfalso.
  destruct (module_code_span _ _ _ H) as [pre [post [Ht _]]].
  destruct (module_code_shape _ _ _ H)
    as [ws [ws' [mid [Hc _]]]].
  rewrite Hc in Ht.
  assert (Str.contains "module" text = true) as H1.
  { assert (text = (pre +:+ ws) +:+ "module"
                   +:+ (ws' +:+ module_name +:+ mid +:+ "endmodule" +:+ post))
      as -> by (rewrite Ht, !app_assoc_s; reflexivity).
    apply contains_intro. }
  assert (Str.contains module_name text = true) as H2.
  { assert (text = (pre +:+ ws +:+ "module" +:+ ws') +:+ module_name
                   +:+ (mid +:+ "endmodule" +:+ post))
      as -> by (rewrite Ht, !app_assoc_s; reflexivity).
    apply contains_intro. }
  assert (Str.contains "endmodule" text = true) as H3.
  { assert (text = (pre +:+ ws +:+ "module" +:+ ws' +:+ module_name +:+ mid)
                   +:+ "endmodule" +:+ post)
      as -> by (rewrite Ht, !app_assoc_s; reflexivity).
    apply contains_intro. }
  destruct Hno as [Hno|[Hno|Hno]]; congruence.
Qed.

Lemma module_code_not_found_witness :
  get_module_code "alu" "module adder(input a);
  assign y = a;
" = None.
Proof.
  apply module_code_not_found. right. right. vm_compute. reflexivity.
Defined.

(** ** The module locator *)

Lemma scan_position (fl : flags) (r : regex) (m : rmatch) (s : string) :
  ∀ (b : option ascii) (n : nat),
    m ∈ scan fl r b s n →
    ∃ pre s', s = pre +:+ s' ∧ match_at fl r (lit_before pre b) s' = Some m.
Proof.
  induction s as [|c s IH]; intros b n H.
  - destruct n; cbn [scan] in H; [|apply elem_of_nil in H; contradiction].
    destruct (match_at fl r b "") as [m'|] eqn:E;
      [|apply elem_of_nil in H; contradiction].
    apply list_elem_of_singleton in H. subst m'.
    exists "", "". split; [reflexivity|exact E].
  - assert (∀ k, m ∈ scan fl r (Some c) s k →
              ∃ pre s', String c s = pre +:+ s'
                        ∧ match_at fl r (lit_before pre b) s' = Some m) as Hrest.
    { intros k Hk. apply IH in Hk as [pre [s' [Hs Hm]]].
      exists (String c pre), s'. split; [rewrite Hs; reflexivity|exact Hm]. }
    destruct n; cbn [scan] in H; [|apply (Hrest _ H)].
    destruct (match_at fl r b (String c s)) as [m'|] eqn:E.
    + apply elem_of_cons in H as [->|H]; [|apply (Hrest _ H)].
      exists "", (String c s). split; [reflexivity|exact E].
    + apply (Hrest _ H).
Qed.

Lemma all_chars_take_while (p : ascii → bool) (s : string) :
  all_chars p (Str.take_while p s) = true.
Proof.
  induction s as [|c s IH]; [reflexivity|]. cbn [Str.take_while].
  destruct (p c) eqn:Hp; [|reflexivity]. cbn [all_chars]. rewrite Hp, IH. reflexivity.
Qed.

Lemma head_drop_while (p : ascii → bool) (s : string) :
  head_is p (Str.drop_while p s) = false.
Proof.
  induction s as [|c s IH]; [reflexivity|]. cbn [Str.drop_while].
  destruct (p c) eqn:Hp; [exact IH|]. cbn [head_is]. exact Hp.
Qed.

Lemma head_is_split (p : ascii → bool) (s : string) :
  head_is p s = true → ∃ c s', s = String c s' ∧ p c = true.
Proof. destruct s as [|c s']; [discriminate|]. intros H. exists c, s'. split; [reflexivity|exact H]. Qed.

(** What a declaration found at [s] looks like. *)
Lemma decl_at_shape (s name r : string) :
  decl_at s = Some (name, r) →
  ∃ ws ws',
    s = ws +:+ "module" +:+ ws' +:+ name +:+ r
    ∧ all_chars Chars.is_space ws = true
    ∧ all_chars Chars.is_space ws' = true
    ∧ ws' ≠ ""
    ∧ name ≠ ""
    ∧ all_chars Chars.is_word name = true
    ∧ head_is Chars.is_word r = false.
Proof.
  unfold decl_at.
  pose proof (take_while_split Chars.is_space s) as E1.
  set (s1 := Str.drop_while Chars.is_space s) in *.
  destruct (Str.prefix "module" s1) eqn:Hpre; [|discriminate].
  cbn [andb]. destruct (head_is Chars.is_space (drop 6 s1)) eqn:Hh; [|discriminate].
  apply prefix_split in Hpre. change (String.length "module") with 6 in Hpre.
  pose proof (take_while_split Chars.is_space (drop 6 s1)) as E2.
  set (s3 := Str.drop_while Chars.is_space (drop 6 s1)) in *.
  destruct (Str.is_empty (Str.take_while Chars.is_word s3)) eqn:He; [discriminate|].
  intros H. injection H as Hn Hr.
  exists (Str.take_while Chars.is_space s),
         (Str.take_while Chars.is_space (drop 6 s1)).
  split; [|split; [apply all_chars_take_while|split; [apply all_chars_take_while|]]].
  - rewrite <- Hn, <- Hr.
    rewrite <- (take_while_split Chars.is_word s3), <- E2, <- Hpre. exact E1.
  - split; [|split; [|split]].
    + apply head_is_split in Hh as [c [s' [Es Hc]]]. rewrite Es.
      cbn [Str.take_while]. rewrite Hc. discriminate.
    + intros E. rewrite <- Hn in E. rewrite E in He. discriminate.
    + rewrite <- Hn. apply all_chars_take_while.
    + rewrite <- Hr. apply head_drop_while.
Qed.

Lemma module_name_match (text name : string) :
  name ∈ get_module_names text →
  ∃ pre s' r, text = pre +:+ s' ∧ decl_at s' = Some (name, r).
Proof.
  unfold get_module_names, finditer.
  intros [m [-> Hm]]%list_elem_of_fmap.
  apply scan_position in Hm as [pre [s' [Hs Hm]]].
  destruct (match_at_names (lit_before pre None) s') as [be E].
  rewrite E in Hm. destruct (at_bol _ _); [|discriminate].
  destruct (decl_at s') as [[name r]|] eqn:Hd; [|discriminate].
  injection Hm as <-. exists pre, s', r. split; [exact Hs|exact Hd].
Qed.

Lemma module_names_shape (text name : string) :
  name ∈ get_module_names text →
  name ≠ ""
  ∧ all_chars Chars.is_word name = true
  ∧ ∃ pre ws post,
      text = pre +:+ "module" +:+ ws +:+ name +:+ post
      ∧ ws ≠ ""
      ∧ all_chars Chars.is_space ws = true
      ∧ head_is Chars.is_word post = false.
Proof.
  intros H. apply module_name_match in H as [pre [s' [r [Hs Hd]]]].
  apply decl_at_shape in Hd
    as [ws [ws' [Es [_ [Hws' [Hne' [Hne [Hw Hr]]]]]]]].
  split; [exact Hne|split; [exact Hw|]].
  exists (pre +:+ ws), ws', r.
  split; [rewrite Hs, Es, !app_assoc_s; reflexivity|].
  split; [exact Hne'|split; [exact Hws'|exact Hr]].
Qed.

(** X9: every name reported by the locator is a complete identifier of the
    file: it is non-empty, made of word characters only, it stands after
    the keyword [module] and white space, and the character after it, if
    any, is not a word character. *)
Theorem module_names_are_identifiers (text name : string) :
  name ∈ get_module_names text →
  name ≠ ""
  ∧ all_chars Chars.is_word name = true
  ∧ ∃ pre ws post,
      text = pre +:+ "module" +:+ ws +:+ name +:+ post
      ∧ ws ≠ ""
      ∧ all_chars Chars.is_space ws = true
      ∧ head_is Chars.is_word post = false.
Proof. apply module_names_shape. Qed.

Lemma module_names_are_identifiers_witness :
  "fifo_8" ≠ ""
  ∧ all_chars Chars.is_word "fifo_8" = true
  ∧ ∃ pre ws post,
      "  module fifo_8#(parameter W = 8) (input clk);"
        = pre +:+ "module" +:+ ws +:+ "fifo_8" +:+ post
      ∧ ws ≠ ""
      ∧ all_chars Chars.is_space ws = true
      ∧ head_is Chars.is_word post = false.
Proof.
  apply (module_names_are_identifiers
           "  module fifo_8#(parameter W = 8) (input clk);" "fifo_8").
  vm_compute. apply list_elem_of_here.
Defined.

(** X10: a text in which the keyword [module] does not occur has no module
    names. *)
Theorem no_keyword_no_names (text : string) :
  Str.contains "module" text = false → get_module_names text = [].
Proof.
  intros Hno. apply elem_of_nil_inv. intros name H.
  apply module_names_shape in H
    as [_ [_ [pre [ws [post [Ht _]]]]]].
  rewrite Ht, contains_intro in Hno. discriminate.
Qed.

Lemma no_keyword_no_names_witness :
  get_module_names "assign y = a & b;
// no declaration here
" = [].
Proof. apply no_keyword_no_names. vm_compute. reflexivity. Defined.

Lemma word_not_space (c : ascii) : Chars.is_word c = true → Chars.is_space c = false.
Proof.
  intros Hw. destruct (Chars.is_space c) eqn:Hs; [|reflexivity].
  apply space_not_word in Hs. congruence.
Qed.

Lemma take_while_app_all (p : ascii → bool) (a b : string) :
  all_chars p a = true →
  Str.take_while p (a +:+ b) = a +:+ Str.take_while p b.
Proof.
  induction a as [|c a IH]; [reflexivity|]. cbn [all_chars].
  intros [Hc Ha]%andb_true_iff. rewrite !app_cons. cbn [Str.take_while].
  rewrite Hc, (IH Ha). reflexivity.
Qed.

(** X11: the code returned for a name made of word characters, handed to
    the locator, declares first a module whose name begins with the requested
    name: the extractor finds the name as the beginning of an identifier. *)
Theorem extracted_code_declares_name (module_name text code : string) :
  module_name ≠ "" →
  all_chars Chars.is_word module_name = true →
  get_module_code module_name text = Some code →
  ∃ found others,
    get_module_names code = found :: others
    ∧ Str.prefix module_name found = true.
Proof.
  intros Hne Hword H.
  apply module_code_shape in H
    as [ws [ws' [mid [Hc [Hws [Hws' [Hne' _]]]]]]].
  assert (decl_at code
          = Some (module_name +:+ Str.take_while Chars.is_word (mid +:+ "endmodule"),
                  Str.drop_while Chars.is_word
                    (module_name +:+ mid +:+ "endmodule"))) as Hd.
  { unfold decl_at. rewrite Hc.
    change ("module" +:+ ws' +:+ module_name +:+ mid +:+ "endmodule")
      with (String "m" ("odule" +:+ ws' +:+ module_name +:+ mid +:+ "endmodule")).
    rewrite drop_while_all_app by (exact Hws || reflexivity).
    change (String "m" ("odule" +:+ ws' +:+ module_name +:+ mid +:+ "endmodule"))
      with ("module" +:+ ws' +:+ module_name +:+ mid +:+ "endmodule").
    rewrite prefix_app_self.
    change 6 with (String.length "module"). rewrite drop_app_length.
    destruct ws' as [|c ws']; [contradiction|].
    cbn [all_chars] in Hws'. apply andb_true_iff in Hws' as [Hc' Hws'].
    rewrite app_cons. cbn [head_is andb]. rewrite Hc'.
    destruct module_name as [|x nm]; [contradiction|].
    cbn [all_chars] in Hword. apply andb_true_iff in Hword as [Hx Hnm].
    assert (Str.drop_while Chars.is_space
              (String c (ws' +:+ String x nm +:+ mid +:+ "endmodule"))
            = String x nm +:+ mid +:+ "endmodule") as ->.
    { change (String c (ws' +:+ String x nm +:+ mid +:+ "endmodule"))
        with (String c ws' +:+ String x (nm +:+ mid +:+ "endmodule")).
      apply drop_while_all_app;
        [cbn [all_chars]; rewrite Hc', Hws'; reflexivity|].
      apply word_not_space, Hx. }
    rewrite take_while_app_all by (cbn [all_chars]; rewrite Hx, Hnm; reflexivity).
    reflexivity. }
  unfold get_module_names, finditer.
  change ((fun m => group_text m 1) <$>
            scan module_names_flags module_names_regex None code 0)
    with (names_from None code).
  rewrite names_from_bol by reflexivity. rewrite Hd.
  eexists _, _. split; [reflexivity|apply prefix_app_self].
Qed.

Lemma extracted_code_declares_name_witness :
  ∃ found others,
    get_module_names "module adder(input a, output y);
  assign y = a;
endmodule" = found :: others
    ∧ Str.prefix "add" found = true.
Proof.
  apply (extracted_code_declares_name "add" adder_source).
  - discriminate.
  - reflexivity.
  - vm_compute. reflexivity.
Defined.

(** * Further properties of the port parser *)

Lemma head_drop_while_end (p q : ascii → bool) (s : string) :
  head_is p s = false → head_is p (Str.drop_while_end q s) = false.
Proof.
  destruct s as [|c s]; [reflexivity|]. cbn [head_is Str.drop_while_end].
  intros Hc. destruct (Str.is_empty (Str.drop_while_end q s) && q c);
    [reflexivity|exact Hc].
Qed.

Lemma drop_while_head (p : ascii → bool) (s : string) :
  head_is p s = false → Str.drop_while p s = s.
Proof.
  destruct s as [|c s]; [reflexivity|]. cbn [head_is Str.drop_while].
  intros ->. reflexivity.
Qed.

Lemma strip_head (s : string) : head_is Chars.is_space (Str.strip s) = false.
Proof. unfold Str.strip. apply head_drop_while_end, head_drop_while. Qed.

Lemma strip_idem (s : string) : Str.strip (Str.strip s) = Str.strip s.
Proof.
  unfold Str.strip at 1. rewrite (drop_while_head _ _ (strip_head s)).
  apply strip_idem_end.
Qed.

Lemma drop_while_app_stop (p : ascii → bool) (a b : string) :
  head_is p b = false → b ≠ "" → ∃ a', Str.drop_while p (a +:+ b) = a' +:+ b.
Proof.
  intros Hb Hne. induction a as [|c a [a' IH]].
  - exists "". rewrite app_empty_l. apply drop_while_head, Hb.
  - rewrite app_cons. cbn [Str.drop_while]. destruct (p c).
    + exists a'. exact IH.
    + exists (String c a). reflexivity.
Qed.

Lemma port_names_entry (p_names name : string) :
  name ∈ port_names p_names →
  name ≠ "" ∧ Str.drop_while_end Chars.is_space name = name
  ∧ head_is Chars.is_space name = false.
Proof.
  intros H. destruct (port_names_stripped _ _ H) as [Hne Hend].
  split; [exact Hne|split; [exact Hend|]].
  unfold port_names in H. apply list_elem_of_fmap in H as [piece [-> _]].
  apply strip_head.
Qed.

Lemma port_entry_good (p_width p_names name : string) :
  name ∈ port_names p_names →
  Str.strip (port_info p_width name) ≠ ""
  ∧ Str.strip (Str.strip (port_info p_width name))
    = Str.strip (port_info p_width name).
Proof.
  intros H. apply port_names_entry in H as [Hne [Hend Hhead]].
  split; [|apply strip_idem].
  unfold port_info, Str.strip.
  set (w := if Str.is_empty p_width then ""
            else Str.drop_while_end Chars.is_space
                   (Str.drop_while Chars.is_space p_width)).
  rewrite <- app_assoc_s.
  destruct (drop_while_app_stop Chars.is_space (w +:+ " ") name Hhead Hne)
    as [a' ->].
  rewrite drop_while_end_app_keep by assumption.
  destruct a'; destruct name; try discriminate. contradiction.
Qed.

Lemma add_group_good (P : string → Prop) (p_type p_width p_names : string)
    (acc : list string * list string) :
  (∀ name, name ∈ port_names p_names → P (Str.strip (port_info p_width name))) →
  Forall P acc.1 → Forall P acc.2 →
  Forall P (add_group acc p_type p_width p_names).1
  ∧ Forall P (add_group acc p_type p_width p_names).2.
Proof.
  unfold add_group. intros Hnew.
  assert (Forall (fun name => P (Str.strip (port_info p_width name)))
                 (port_names p_names)) as Hall.
  { apply Forall_forall. exact Hnew. }
  clear Hnew. revert acc.
  induction Hall as [|name names Hname _ IH]; intros [ins outs] Hi Ho.
  - split; assumption.
  - cbn [fold_left]. destruct (String.eqb p_type "input").
    + assert (Forall P (ins ++ [Str.strip (port_info p_width name)])) as Hi'.
      { apply Forall_app. split; [exact Hi|].
        constructor; [exact Hname|constructor]. }
      exact (IH (ins ++ [Str.strip (port_info p_width name)], outs) Hi' Ho).
    + assert (Forall P (outs ++ [Str.strip (port_info p_width name)])) as Ho'.
      { apply Forall_app. split; [exact Ho|].
        constructor; [exact Hname|constructor]. }
      exact (IH (ins, outs ++ [Str.strip (port_info p_width name)]) Hi Ho').
Qed.

Lemma parse_ports_good (ports_text : string) :
  let good := fun e => e ≠ "" ∧ Str.strip e = e in
  Forall good (parse_ports ports_text).1 ∧ Forall good (parse_ports ports_text).2.
Proof.
  intros good. unfold parse_ports.
  generalize (finditer no_flags port_regex (ports_text +:+ "
")).
  intros ms.
  assert (∀ acc, Forall good acc.1 → Forall good acc.2 →
            Forall good (fold_left (fun acc m =>
               add_group acc (group_text m 1) (group_text m 2) (group_text m 3))
               ms acc).1
            ∧ Forall good (fold_left (fun acc m =>
               add_group acc (group_text m 1) (group_text m 2) (group_text m 3))
               ms acc).2) as H.
  { induction ms as [|m ms IH]; intros acc Hi Ho; [split; assumption|].
    cbn [fold_left]. apply IH; apply add_group_good; try assumption;
      intros name Hn; apply (port_entry_good _ _ _ Hn). }
  apply H; constructor.
Qed.

Lemma port_entries_good (module_name verilog_text e : string) :
  e ∈ (get_ports_for_testbench module_name verilog_text).1
      ++ (get_ports_for_testbench module_name verilog_text).2 →
  e ≠ "" ∧ Str.strip e = e.
Proof.
  unfold get_ports_for_testbench.
  destruct (search _ _ _) as [m|].
  - destruct (parse_ports_good (group_text m 1)) as [Hi Ho].
    intros [H|H]%elem_of_app.
    + apply (proj1 (Forall_forall _ _) Hi e H).
    + apply (proj1 (Forall_forall _ _) Ho e H).
  - intros H. apply elem_of_nil in H. contradiction.
Qed.

(** X12: every entry the port parser returns, input or output, is a
    non-empty text without white space at its ends: no empty port name is
    handed on, whatever the header looks like. *)
Theorem port_entries_nonempty_stripped (module_name verilog_text e : string) :
  e ∈ (get_ports_for_testbench module_name verilog_text).1
      ++ (get_ports_for_testbench module_name verilog_text).2 →
  e ≠ "" ∧ Str.strip e = e.
Proof. apply port_entries_good. Qed.

Lemma port_entries_nonempty_stripped_witness :
  "[7:0] q" ≠ "" ∧ Str.strip "[7:0] q" = "[7:0] q".
Proof.
  apply (port_entries_nonempty_stripped
           "m" "module m (input wire a , b,, output reg [7:0] q );").
  vm_compute. apply list_elem_of_further, list_elem_of_further, list_elem_of_here.
Defined.

(** X13: a group without a width annotation enters its names as they are,
    in the sequence selected by the direction keyword. *)
Theorem port_group_without_width (p_type p_names : string)
    (ins outs : list string) :
  add_group (ins, outs) p_type "" p_names
  = if String.eqb p_type "input" then (ins ++ port_names p_names, outs)
    else (ins, outs ++ port_names p_names).
Proof.
  unfold add_group.
  rewrite (add_group_spec (fun name => name)).
  - rewrite list_fmap_id. reflexivity.
  - apply Forall_forall. intros name Hn.
    apply port_names_entry in Hn as [Hne [Hend Hhead]].
    unfold port_info. cbn [Str.is_empty]. rewrite app_empty_l.
    unfold Str.strip. change (" " +:+ name) with (String " " name).
    rewrite drop_while_cons_true by reflexivity.
    rewrite (drop_while_head _ _ Hhead). exact Hend.
Qed.

(** ** The header pattern ignores the case of the name *)









(** * Further properties of the reply clean-up *)

(** X15: a reply that is a bare JSON object, not fenced, with white space
    around it, is handed to the parser as the object itself. *)
Theorem strip_reply_bare_object (lead body trail : string) :
  all_chars Chars.is_space lead = true →
  all_chars Chars.is_space trail = true →
  strip_reply (lead +:+ "{" +:+ body +:+ "}" +:+ trail) = "{" +:+ body +:+ "}".
Proof.
  intros Hl Ht. unfold strip_reply.
  assert (Str.strip (lead +:+ "{" +:+ body +:+ "}" +:+ trail)
          = "{" +:+ body +:+ "}") as ->.
  { unfold Str.strip.
    change ("{" +:+ body +:+ "}" +:+ trail) with (String "{" (body +:+ "}" +:+ trail)).
    rewrite drop_while_all_app by (assumption || reflexivity).
    assert (String "{" (body +:+ "}" +:+ trail)
            = (String "{" body +:+ "}") +:+ trail) as ->
      by (rewrite !app_cons, app_assoc_s; reflexivity).
    rewrite drop_while_end_all_suffix by assumption.
    apply drop_while_end_last. reflexivity. }
  unfold Str.lstrip. rewrite app_cons, app_empty_l.
  rewrite drop_while_cons_false by reflexivity.
  unfold Str.rstrip.
  change (String "{" (body +:+ "}")) with (String "{" body +:+ "}").
  apply drop_while_end_last. reflexivity.
Qed.

Lemma strip_reply_bare_object_witness :
  strip_reply ("
  " +:+ "{" +:+ " inputs: [a], outputs: [y], gates: [] " +:+ "}" +:+ "
") = "{" +:+ " inputs: [a], outputs: [y], gates: [] " +:+ "}".
Proof. apply strip_reply_bare_object; reflexivity. Defined.

Lemma length_drop_while_end_le (p : ascii → bool) (s : string) :
  String.length (Str.drop_while_end p s) ≤ String.length s.
Proof.
  induction s as [|c s IH]; [reflexivity|]. cbn [Str.drop_while_end].
  destruct (Str.is_empty _ && p c); simpl; lia.
Qed.

Lemma drop_while_end_not_last (p : ascii → bool) (s a : string) (c : ascii) :
  p c = true → Str.drop_while_end p s ≠ a +:+ String c "".
Proof.
  intros Hc E.
  pose proof (drop_while_end_idem p s) as Hidem. rewrite E in Hidem.
  assert (Str.drop_while_end p (a +:+ String c "") = Str.drop_while_end p a) as Ha.
  { apply drop_while_end_all_suffix. cbn [all_chars]. rewrite Hc. reflexivity. }
  rewrite Ha in Hidem. apply (f_equal String.length) in Hidem.
  pose proof (length_drop_while_end_le p a) as Hle.
  rewrite length_app_s in Hidem. simpl in Hidem. lia.
Qed.

(** X16: [lstrip] and [rstrip] take sets of characters, not a prefix and a
    suffix: the text handed to the parser never begins with a back quote or
    one of the letters j, s, o, n, and never ends with a back quote,
    whatever the reply was. *)
Theorem strip_reply_eats_fence_characters (text : string) :
  head_is (fun c => Chars.mem c "```json") (strip_reply text) = false
  ∧ ∀ a, strip_reply text ≠ a +:+ "`".
Proof.
  unfold strip_reply, Str.rstrip, Str.lstrip. split.
  - apply head_drop_while_end, head_drop_while.
  - intros a. apply drop_while_end_not_last. reflexivity.
Qed.

(** * Properties of the testbench requester *)

Lemma split_on_go_cons (sep s : string) (skip : nat) :
  ∃ h t, split_on_go sep s skip = h :: t.
Proof.
  revert skip. induction s as [|c s IH]; intros skip; [eexists _, _; reflexivity|].
  cbn [split_on_go]. destruct skip as [|k]; [|apply IH].
  destruct (Str.prefix sep (String c s)); [eexists _, _; reflexivity|].
  destruct (IH 0) as [h [t ->]]. eexists _, _. reflexivity.
Qed.

Lemma prefix_app_l (sub a b : string) :
  Str.prefix sub a = true → Str.prefix sub (a +:+ b) = true.
Proof.
  revert a. induction sub as [|x sub IH]; intros a H; [reflexivity|].
  destruct a as [|c a]; [discriminate|].
  cbn [Str.prefix] in H. apply andb_true_iff in H as [Hc H].
  rewrite app_cons. cbn [Str.prefix]. rewrite Hc, (IH a H). reflexivity.
Qed.

Lemma contains_app_l (sub a b : string) :
  Str.contains sub a = true → Str.contains sub (a +:+ b) = true.
Proof.
  induction a as [|c a IH]; intros H.
  - cbn [Str.contains] in H. rewrite orb_false_r in H.
    destruct sub; [|discriminate]. destruct b; reflexivity.
  - cbn [Str.contains] in H. apply orb_true_iff in H as [H|H].
    + rewrite app_cons. cbn [Str.contains].
      change (String c (a +:+ b)) with (String c a +:+ b).
      rewrite (prefix_app_l _ _ b H). reflexivity.
    + rewrite app_cons. cbn [Str.contains]. rewrite (IH H). apply orb_true_r.
Qed.

(** The first piece of a split is the text before the first separator. *)
Lemma split_on_head (sep s h : string) (t : list string) :
  sep ≠ "" →
  split_on_go sep s 0 = h :: t →
  (∃ r, s = h +:+ r) ∧ Str.contains sep h = false.
Proof.
  intros Hsep. revert h t. induction s as [|c s IH]; intros h t H.
  - injection H as <- <-. split; [exists ""; reflexivity|].
    destruct sep; [contradiction|reflexivity].
  - cbn [split_on_go] in H.
    destruct (Str.prefix sep (String c s)) eqn:Hp.
    + injection H as <- _. split; [exists (String c s); reflexivity|].
      destruct sep; [contradiction|reflexivity].
    + destruct (split_on_go_cons sep s 0) as [h' [t' E]]. rewrite E in H.
      injection H as <- <-. destruct (IH h' t' E) as [[r Hr] Hno].
      split; [exists r; rewrite Hr; reflexivity|].
      cbn [Str.contains]. rewrite Hno, orb_false_r.
      destruct (Str.prefix sep (String c h')) eqn:Hp'; [|reflexivity].
      apply (prefix_app_l _ _ r) in Hp'. rewrite app_cons, <- Hr in Hp'.
      congruence.
Qed.

Lemma split_on_two (sep s : string) :
  sep ≠ "" → Str.contains sep s = true →
  ∃ h x t, split_on sep s = h :: x :: t.
Proof.
  intros Hsep. unfold split_on. induction s as [|c s IH]; intros H.
  - destruct sep; [contradiction|discriminate].
  - cbn [split_on_go]. destruct (Str.prefix sep (String c s)) eqn:Hp.
    + destruct (split_on_go_cons sep s (String.length sep - 1)) as [x [t ->]].
      eexists _, _, _. reflexivity.
    + cbn [Str.contains] in H. rewrite Hp in H. cbn [orb] in H.
      destruct (IH H) as [h [x [t ->]]]. eexists _, _, _. reflexivity.
Qed.

Lemma contains_drop_while (sub : string) (p : ascii → bool) (s : string) :
  Str.contains sub (Str.drop_while p s) = true → Str.contains sub s = true.
Proof.
  destruct (drop_while_split p s) as [pre E]. intros H.
  rewrite E. apply contains_app_r, H.
Qed.

Lemma drop_while_end_prefix (p : ascii → bool) (s : string) :
  ∃ t, s = Str.drop_while_end p s +:+ t.
Proof.
  induction s as [|c s [t IH]]; [exists ""; reflexivity|].
  cbn [Str.drop_while_end].
  destruct (Str.is_empty (Str.drop_while_end p s) && p c).
  - exists (String c s). reflexivity.
  - exists t. rewrite app_cons, <- IH. reflexivity.
Qed.

Lemma contains_strip (sub s : string) :
  Str.contains sub (Str.strip s) = true → Str.contains sub s = true.
Proof.
  unfold Str.strip. intros H.
  apply (contains_drop_while sub Chars.is_space).
  destruct (drop_while_end_prefix Chars.is_space
              (Str.drop_while Chars.is_space s)) as [t E].
  rewrite E. apply contains_app_l, H.
Qed.

(** X17: when the trimmed reply contains the opening fence, the two
    indexed pieces exist (no IndexError is raised), the result is the trimmed
    text between the first opening fence and the next fence marker, and it
    contains no fence marker. *)
Theorem testbench_code_fenced_has_no_fence (response_text : string) :
  Str.contains "```verilog" (Str.strip response_text) = true →
  (∃ fenced body,
     split_on "```verilog" (Str.strip response_text) !! 1 = Some fenced
     ∧ split_on "```" fenced !! 0 = Some body
     ∧ testbench_code response_text = Str.strip body)
  ∧ Str.contains "```" (testbench_code response_text) = false.
Proof.
  intros Hc. unfold testbench_code. rewrite Hc.
  destruct (split_on_two "```verilog" _ ltac:(discriminate) Hc) as [h [x [t E]]].
  rewrite E. cbn [lookup list_lookup].
  destruct (split_on_go_cons "```" x 0) as [body [t' E']].
  assert (split_on "```" x !! 0 = Some body) as E0.
  { unfold split_on. rewrite E'. reflexivity. }
  rewrite E0. split.
  - exists x, body. split; [reflexivity|split; [exact E0|reflexivity]].
  - destruct (split_on_head "```" x body t' ltac:(discriminate) E') as [_ Hno].
    destruct (Str.contains "```" (Str.strip body)) eqn:Hs; [|reflexivity].
    apply contains_strip in Hs. congruence.
Qed.

Lemma testbench_code_fenced_has_no_fence_witness :
  Str.contains "```"
    (testbench_code "Here it is:
```verilog
module t_tb; endmodule
```
Enjoy ```verilog again```") = false.
Proof.
  apply testbench_code_fenced_has_no_fence. vm_compute. reflexivity.
Defined.

Lemma drop_while_app_head (p : ascii → bool) (a : string) (c : ascii) (x : string) :
  p c = false →
  Str.drop_while p (a +:+ String c x) = Str.drop_while p a +:+ String c x.
Proof.
  intros Hc. induction a as [|y a IH].
  - rewrite app_empty_l. apply drop_while_cons_false, Hc.
  - rewrite app_cons. cbn [Str.drop_while]. destruct (p y); [exact IH|reflexivity].
Qed.

Lemma drop_while_end_app_nonempty (p : ascii → bool) (a y : string) :
  Str.is_empty (Str.drop_while_end p y) = false →
  Str.drop_while_end p (a +:+ y) = a +:+ Str.drop_while_end p y.
Proof.
  intros Hy. induction a as [|c a IH]; [reflexivity|].
  rewrite app_cons. cbn [Str.drop_while_end]. rewrite IH, is_empty_app, Hy.
  rewrite andb_false_r. reflexivity.
Qed.

(** Trimming a reply whose fenced part starts and ends with a back quote
    only trims what is around the fence. *)
Lemma strip_around_fence (pre inner post : string) :
  Str.strip (pre +:+ "```verilog" +:+ inner +:+ "```" +:+ post)
  = Str.drop_while Chars.is_space pre +:+ "```verilog" +:+ inner +:+ "```"
    +:+ Str.drop_while_end Chars.is_space post.
Proof.
  unfold Str.strip.
  change ("```verilog" +:+ inner +:+ "```" +:+ post)
    with (String "`" ("``verilog" +:+ inner +:+ "```" +:+ post)).
  rewrite drop_while_app_head by reflexivity.
  change (String "`" ("``verilog" +:+ inner +:+ "```" +:+ post))
    with ("```verilog" +:+ inner +:+ "```" +:+ post).
  set (pre' := Str.drop_while Chars.is_space pre).
  assert (pre' +:+ "```verilog" +:+ inner +:+ "```" +:+ post
          = (pre' +:+ "```verilog" +:+ inner +:+ "``") +:+ String "`" post) as ->
    by (rewrite !app_assoc_s; reflexivity).
  rewrite drop_while_end_app_nonempty.
  - cbn [Str.drop_while_end]. rewrite andb_false_r, !app_assoc_s. reflexivity.
  - cbn [Str.drop_while_end]. rewrite andb_false_r. reflexivity.
Qed.

Lemma split_on_go_skip (sep x rest : string) :
  split_on_go sep (x +:+ rest) (String.length x) = split_on_go sep rest 0.
Proof.
  induction x as [|c x IH]; [reflexivity|].
  rewrite app_cons. cbn [String.length split_on_go]. exact IH.
Qed.

Lemma split_on_at_sep (sep rest : string) :
  sep ≠ "" →
  split_on_go sep (sep +:+ rest) 0 = "" :: split_on_go sep rest 0.
Proof.
  intros Hsep. destruct sep as [|a sep]; [contradiction|].
  rewrite app_cons. cbn [split_on_go].
  change (String a (sep +:+ rest)) with (String a sep +:+ rest).
  rewrite prefix_app_self.
  replace (String.length (String a sep) - 1) with (String.length sep)
    by (simpl; lia).
  rewrite split_on_go_skip. reflexivity.
Qed.

Lemma split_on_go_no_prefix (sep : string) (c : ascii) (s h : string)
    (t : list string) :
  Str.prefix sep (String c s) = false →
  split_on_go sep s 0 = h :: t →
  split_on_go sep (String c s) 0 = String c h :: t.
Proof. intros Hp E. cbn [split_on_go]. rewrite Hp, E. reflexivity. Qed.

Lemma split_on_first (sep pre rest : string) :
  sep ≠ "" →
  (∀ a b, pre = a +:+ b → b ≠ "" → Str.prefix sep (b +:+ sep +:+ rest) = false) →
  split_on_go sep (pre +:+ sep +:+ rest) 0 = pre :: split_on_go sep rest 0.
Proof.
  intros Hsep. induction pre as [|c pre IH]; intros Hno.
  - rewrite app_empty_l, split_on_at_sep by exact Hsep. reflexivity.
  - rewrite app_cons.
    apply split_on_go_no_prefix.
    + apply (Hno "" (String c pre)); [reflexivity|discriminate].
    + apply IH. intros a b E Hb. apply (Hno (String c a) b); [|exact Hb].
      rewrite E. reflexivity.
Qed.

Lemma prefix_trans (a b s : string) :
  Str.prefix a b = true → Str.prefix b s = true → Str.prefix a s = true.
Proof.
  revert b s. induction a as [|x a IH]; intros b s Hab Hbs; [reflexivity|].
  destruct b as [|y b]; [discriminate|]. destruct s as [|z s]; [discriminate|].
  cbn [Str.prefix] in *.
  apply andb_true_iff in Hab as [Hxy Hab]. apply andb_true_iff in Hbs as [Hyz Hbs].
  unfold Chars.eqb in *. apply Ascii.eqb_eq in Hxy, Hyz. subst y z.
  rewrite Ascii.eqb_refl. apply (IH b s Hab Hbs).
Qed.

Lemma no_fence_at_head (c : ascii) (x y : string) :
  Str.prefix "```" (String c (x +:+ "``")) = false →
  Str.prefix "```" (String c (x +:+ "``") +:+ y) = false.
Proof.
  intros H. rewrite prefix_app_long; [exact H|].
  cbn [String.length]. rewrite length_app_s. simpl. lia.
Qed.

Lemma prefix_fence_short (post : string) :
  head_is is_backquote post = false →
  Str.prefix "```verilog" ("``" +:+ post) = false
  ∧ Str.prefix "```verilog" ("`" +:+ post) = false.
Proof.
  destruct post as [|c post]; [split; reflexivity|].
  cbn [head_is]. unfold is_backquote. intros Hc.
  rewrite chars_eqb_sym in Hc.
  split.
  - change ("``" +:+ String c post) with (String "`" (String "`" (String c post))).
    cbn [Str.prefix]. rewrite Hc. rewrite !andb_false_r. reflexivity.
  - change ("`" +:+ String c post) with (String "`" (String c post)).
    destruct post as [|c' post]; cbn [Str.prefix];
      rewrite Hc, ?andb_false_r; reflexivity.
Qed.

(** The second split, applied to the first piece after the opening fence,
    recovers the text up to the closing fence. *)
Lemma fenced_body_recovered (body post : string) :
  Str.contains "```" (body +:+ "``") = false →
  head_is is_backquote post = false →
  ∃ fenced t t',
    split_on_go "```verilog" (body +:+ "```" +:+ post) 0 = fenced :: t
    ∧ split_on_go "```" fenced 0 = body :: t'.
Proof.
  intros Hno Hpost. induction body as [|c body IH].
  - rewrite app_empty_l.
    destruct (Str.prefix "```verilog" ("```" +:+ post)) eqn:Hp.
    + change ("```" +:+ post) with (String "`" ("``" +:+ post)) in *.
      cbn [split_on_go]. rewrite Hp. eexists _, _, _. split; reflexivity.
    + destruct (split_on_go_cons "```verilog" post 0) as [h [t E]].
      destruct (prefix_fence_short post Hpost) as [H2 H1].
      pose proof (split_on_go_no_prefix "```verilog" "`" post h t H1 E) as E1.
      pose proof (split_on_go_no_prefix "```verilog" "`" _ _ t H2 E1) as E2.
      pose proof (split_on_go_no_prefix "```verilog" "`" _ _ t Hp E2) as E3.
      exists (String "`" (String "`" (String "`" h))), t.
      destruct (split_on_go_cons "```" h 0) as [h' [t' E']].
      exists (split_on_go "```" h 0). split; [exact E3|].
      change (String "`" (String "`" (String "`" h))) with ("```" +:+ h).
      apply split_on_at_sep. discriminate.
  - rewrite app_cons in Hno. cbn [Str.contains] in Hno.
    apply orb_false_iff in Hno as [Hhead Hno].
    destruct (IH Hno) as [fenced [t [t' [E E']]]].
    assert (Str.prefix "```" (String c (body +:+ "```" +:+ post)) = false) as H3.
    { assert (String c (body +:+ "```" +:+ post)
              = String c (body +:+ "``") +:+ String "`" post) as ->
        by (rewrite !app_cons, !app_assoc_s; reflexivity).
      apply no_fence_at_head, Hhead. }
    exists (String c fenced), t, t'. split.
    + rewrite app_cons. apply split_on_go_no_prefix; [|exact E].
      destruct (Str.prefix "```verilog" (String c (body +:+ "```" +:+ post)))
        eqn:Hp; [|reflexivity].
      rewrite (prefix_trans "```" "```verilog" _ eq_refl Hp) in H3. discriminate.
    + apply split_on_go_no_prefix; [|exact E'].
      destruct (split_on_head "```verilog" _ _ _ ltac:(discriminate) E)
        as [[r Hr] _].
      destruct (Str.prefix "```" (String c fenced)) eqn:Hp; [|reflexivity].
      apply (prefix_app_l _ _ r) in Hp. rewrite app_cons, <- Hr in Hp. congruence.
Qed.

(** X18: for a reply with a fenced block - text [pre] in which no opening
    fence begins, the opening fence, a body in which no fence marker begins,
    the closing fence and text [post] that does not start with a back quote -
    the testbench requester returns the trimmed body. *)
Theorem testbench_code_fenced_body (pre body post : string) :
  Str.contains "```verilog" (pre +:+ "```verilo") = false →
  Str.contains "```" (body +:+ "``") = false →
  head_is is_backquote post = false →
  testbench_code (pre +:+ "```verilog" +:+ body +:+ "```" +:+ post)
  = Str.strip body.
Proof.
  intros Hpre Hbody Hpost. unfold testbench_code. rewrite strip_around_fence.
  set (pre' := Str.drop_while Chars.is_space pre).
  set (post' := Str.drop_while_end Chars.is_space post).
  rewrite contains_intro.
  assert (head_is is_backquote post' = false) as Hpost'
    by (apply head_drop_while_end, Hpost).
  destruct (fenced_body_recovered body post' Hbody Hpost')
    as [fenced [t [t' [E E']]]].
  unfold split_on. rewrite split_on_first, E; [|discriminate|].
  - cbn [lookup list_lookup]. rewrite E'. reflexivity.
  - intros a b Ea Hb.
    assert ("```verilog" +:+ body +:+ "```" +:+ post'
            = "```verilo" +:+ String "g" (body +:+ "```" +:+ post')) as -> by reflexivity.
    rewrite <- app_assoc_s.
    rewrite prefix_app_long
      by (rewrite length_app_s; destruct b; [contradiction|simpl; lia]).
    destruct (Str.prefix "```verilog" (b +:+ "```verilo")) eqn:Hp; [|reflexivity].
    exfalso.
    destruct (drop_while_split Chars.is_space pre) as [w Ew]. fold pre' in Ew.
    assert (Str.contains "```verilog" (pre +:+ "```verilo") = true) as Hc.
    { rewrite Ew, Ea, !app_assoc_s. apply contains_app_r, contains_app_r.
      destruct (b +:+ "```verilo"); cbn [Str.contains]; rewrite Hp; reflexivity. }
    congruence.
Qed.

Lemma testbench_code_fenced_body_witness :
  testbench_code ("Here is the testbench:
" +:+ "```verilog" +:+ "
module adder_tb;
endmodule
" +:+ "```" +:+ "
Good luck!") = Str.strip "
module adder_tb;
endmodule
".
Proof. apply testbench_code_fenced_body; vm_compute; reflexivity. Defined.

Lemma join_nonempty (sep x : string) (rest : list string) :
  x ≠ "" → Str.is_empty (join sep (x :: rest)) = false.
Proof.
  intros Hx. destruct x as [|c x]; [contradiction|].
  destruct rest; reflexivity.
Qed.

(** X19: on the port lists the parser returns, the prompt's fallback word
    None stands for the empty list only: a non-empty list is always rendered
    as its entries joined by a comma and a space. *)
Theorem ports_line_of_parsed_ports (module_name verilog_text : string) :
  let ports := get_ports_for_testbench module_name verilog_text in
  ports_line ports.1
    = match ports.1 with [] => "None" | _ => join ", " ports.1 end
  ∧ ports_line ports.2
    = match ports.2 with [] => "None" | _ => join ", " ports.2 end.
Proof.
  intros ports.
  assert (∀ l : list string, (∀ e, e ∈ l → e ≠ "") →
            ports_line l = match l with [] => "None" | _ => join ", " l end) as H.
  { intros [|x l] Hl; [reflexivity|]. unfold ports_line.
    rewrite join_nonempty; [reflexivity|]. apply Hl, list_elem_of_here. }
  split; apply H; intros e He.
  - apply (port_entries_good module_name verilog_text e).
    apply elem_of_app. left. exact He.
  - apply (port_entries_good module_name verilog_text e).
    apply elem_of_app. right. exact He.
Qed.

(** * A declared module is found *)

Lemma any_char_true (c : ascii) : any_char c = true.
Proof. unfold any_char. destruct (Chars.is_space c); reflexivity. Qed.

(** A lazy repetition over any character succeeds as soon as the
    continuation succeeds somewhere ahead. *)
Lemma star_lazy_succeeds
    (body : mstate → (mstate → option mstate) → option mstate)
    (k : mstate → option mstate) (r : string) :
  (∀ st k, body st k = step_char any_char st k) →
  (∀ b cs, ∃ e, k (MState b r cs) = Some e) →
  ∀ (w : string) (n : nat) (b : option ascii) (cs : list (nat * string)),
    String.length (w +:+ r) ≤ n →
    ∃ e, star_loop body false k n (MState b (w +:+ r) cs) = Some e.
Proof.
  intros Hbody Hk. induction w as [|c w IH]; intros n b cs Hn.
  - rewrite app_empty_l. destruct (Hk b cs) as [e He].
    destruct n; cbn [star_loop]; [eauto|]. unfold orelse. rewrite He. eauto.
  - destruct n as [|n]; [rewrite app_cons in Hn; simpl in Hn; lia|].
    cbn [star_loop]. unfold orelse.
    destruct (k (MState b (String c w +:+ r) cs)) as [e|]; [eauto|].
    rewrite Hbody. unfold step_char. rewrite app_cons. cbn [rest].
    rewrite any_char_true. unfold advance. cbn [rest caps String.length].
    rewrite (proj2 (Nat.ltb_lt _ _)) by lia.
    apply IH. rewrite app_cons in Hn. simpl in Hn. lia.
Qed.

Lemma search_from_found (fl : flags) (r : regex) (m : rmatch) (s' : string) :
  ∀ (pre : string) (b : option ascii),
    match_at fl r (lit_before pre b) s' = Some m →
    ∃ m', search_from fl r b (pre +:+ s') = Some m'.
Proof.
  induction pre as [|c pre IH]; intros b H.
  - rewrite app_empty_l. cbn [lit_before] in H.
    destruct s'; cbn [search_from]; rewrite H; eauto.
  - rewrite app_cons. cbn [search_from].
    destruct (match_at fl r b (String c (pre +:+ s'))); [eauto|].
    apply IH. exact H.
Qed.

Lemma lit_before_app_last (p : string) (c : ascii) (b : option ascii) :
  lit_before (p +:+ String c "") b = Some c.
Proof. revert b. induction p as [|x p IH]; intros b; [reflexivity|apply IH]. Qed.

Lemma module_code_matches (b : option ascii)
    (lead ws module_name mid post : string) :
  at_bol module_code_flags
    (MState b (lead +:+ "module" +:+ ws +:+ module_name +:+ mid
               +:+ "endmodule" +:+ post) []) = true →
  all_chars Chars.is_space lead = true →
  all_chars Chars.is_space ws = true →
  ws ≠ "" →
  module_name ≠ "" →
  head_is Chars.is_space module_name = false →
  ∃ m, match_at module_code_flags (module_code_regex module_name) b
         (lead +:+ "module" +:+ ws +:+ module_name +:+ mid
          +:+ "endmodule" +:+ post) = Some m.
Proof.
  intros Hb Hlead Hws Hne Hname Hhead. unfold match_at.
  assert (∃ e, run module_code_flags (module_code_regex module_name)
                 (MState b (lead +:+ "module" +:+ ws +:+ module_name +:+ mid
                            +:+ "endmodule" +:+ post) []) Some = Some e) as [e ->];
    [|eauto].
  unfold module_code_regex, Plus. cbn [run]. rewrite Hb. cbn [rest].
  rewrite (star_class_skip _ Chars.is_space (fun st k => eq_refl));
    [|intros b' c s' cs' Hc; cbn [Lit run]; unfold step_char, chr_matches;
      cbn [rest ignorecase module_code_flags]; rewrite (space_not_m c Hc);
      reflexivity|reflexivity].
  change ("module" +:+ ws +:+ module_name +:+ mid +:+ "endmodule" +:+ post)
    with (String "m" ("odule" +:+ ws +:+ module_name +:+ mid
                      +:+ "endmodule" +:+ post)).
  rewrite drop_while_all_app by (exact Hlead || reflexivity).
  change (String "m" ("odule" +:+ ws +:+ module_name +:+ mid
                      +:+ "endmodule" +:+ post))
    with ("module" +:+ ws +:+ module_name +:+ mid +:+ "endmodule" +:+ post).
  rewrite run_lit_prefix by (reflexivity || apply prefix_app_self).
  rewrite drop_app_length.
  generalize (lit_before "module"
                (skip_before Chars.is_space b
                   (lead +:+ String "m" ("odule" +:+ ws +:+ module_name +:+ mid
                                         +:+ "endmodule" +:+ post)))).
  intros b1. clear Hb.
  destruct ws as [|c ws]; [contradiction|].
  cbn [all_chars] in Hws. apply andb_true_iff in Hws as [Hc Hws].
  unfold step_char at 1. rewrite (app_cons c ws). cbn [rest]. rewrite Hc.
  unfold advance. cbn [caps rest].
  destruct module_name as [|x nm]; [contradiction|]. cbn [head_is] in Hhead.
  set (tail := mid +:+ "endmodule" +:+ post).
  assert (∃ e, run module_code_flags (Lit (String x nm))
                 (MState (skip_before Chars.is_space (Some c)
                            (ws +:+ String x nm +:+ tail))
                         (String x nm +:+ tail) [])
                 (fun st' =>
                    star_loop (fun st k => step_char any_char st k) false
                      (fun st'0 => run module_code_flags (Lit "endmodule") st'0 Some)
                      (String.length (rest st')) st') = Some e) as [e He].
  { rewrite run_lit_prefix by (reflexivity || apply prefix_app_self).
    rewrite drop_app_length. cbn [rest]. unfold tail.
    apply (star_lazy_succeeds _ _ ("endmodule" +:+ post));
      [reflexivity| |reflexivity].
    intros b0 cs0.
    rewrite run_lit_prefix by (reflexivity || apply prefix_app_self). eauto. }
  exists e.
  apply (star_class_longest _ Chars.is_space (fun st k => eq_refl));
    [reflexivity|].
  change (ws +:+ String x nm +:+ tail) with (ws +:+ String x (nm +:+ tail)).
  rewrite drop_while_all_app by assumption. exact He.
Qed.

(** X20: a module that is declared at the start of a line (after optional
    white space) under a name that does not begin with white space, and that
    is followed by [endmodule] somewhere later, is always found: the
    extractor does not answer "not found". *)
Theorem declared_module_is_found
    (pre lead ws module_name mid post : string) :
  (pre = "" ∨ ∃ p, pre = p +:+ "
") →
  all_chars Chars.is_space lead = true →
  all_chars Chars.is_space ws = true →
  ws ≠ "" →
  module_name ≠ "" →
  head_is Chars.is_space module_name = false →
  ∃ code,
    get_module_code module_name
      (pre +:+ lead +:+ "module" +:+ ws +:+ module_name +:+ mid
       +:+ "endmodule" +:+ post) = Some code.
Proof.
  intros Hpre Hlead Hws Hne Hname Hhead.
  destruct (module_code_matches (lit_before pre None) lead ws module_name mid post)
    as [m Hm]; try assumption.
  { unfold at_bol. cbn [before].
    destruct Hpre as [->|[p ->]]; [reflexivity|].
    rewrite lit_before_app_last. reflexivity. }
  apply search_from_found in Hm as [m' Hm'].
  exists (whole m'). unfold get_module_code, search. rewrite Hm'. reflexivity.
Qed.

Lemma declared_module_is_found_witness :
  ∃ code,
    get_module_code "alu"
      ("// file
" +:+ "  " +:+ "module" +:+ " " +:+ "alu" +:+ "(input a);
" +:+ "endmodule" +:+ "
") = Some code.
Proof.
  apply (declared_module_is_found "// file
" "  " " " "alu" "(input a);
" "
").
  - right. exists "// file". reflexivity.
  - reflexivity.
  - reflexivity.
  - discriminate.
  - discriminate.
  - reflexivity.
Defined.

(** * Headers located by the port parser *)









(** * The port parser: direction keywords and degraded results *)

















(** * The port parser on a header with a width annotation *)

(** ** The look-ahead *)













(** ** The names of a group *)







(** ** One step of the matcher at a time *)










(** ** A group with a width annotation, a group without *)





(** ** Lists of identifiers *)















(** ** The names read out of a list of identifiers *)














(** ** The scan over the groups *)





(** ** The entries of the two groups *)





(** ** Locating the header *)











(** * Node and edge statements of a shared wire *)














